(** * Movie recommender and spam classifier notebooks: a shallow embedding

    The repository holds two Jupyter notebooks.  The movie notebook builds a
    [tags] string per movie, vectorises the tags with scikit-learn's
    [TfidfVectorizer], computes the cosine-similarity matrix and answers
    [recommend(movie)].  The spam notebook maps the [Category] column to a
    numeric [label], vectorises the messages and fits a
    [LogisticRegression].

    The cells written in the notebooks are embedded as Gallina functions,
    Python built-ins ([sorted], [enumerate], slicing, [str.split],
    [str.replace]) by their language semantics, and the pandas / scikit-learn
    calls by the documented behaviour of the call as the notebook
    parameterises it.  A [str] is a string whose characters stand for code
    points below 256; the numeric arrays are taken over the rationals where
    the code only compares them and over the reals where it computes, so
    what is proved of the latter is what rounding does not change. *)

From Stdlib Require Import List String Ascii Bool Arith ZArith QArith
  Sorted Permutation Reals Psatz.
Import ListNotations.

Set Implicit Arguments.
Local Open Scope string_scope.
Local Open Scope nat_scope.
Local Open Scope list_scope.

(** ** Python values and outcomes of a call *)

Module Py.

(** The values the notebook functions return: [None] or a [str]. *)
Inductive pyval : Type :=
| PyNone
| PyStr (s : string).

(** A call either returns a value or raises an exception of a class. *)
Inductive completion : Type :=
| Returned (v : pyval)
| Raised (cls : string).

(** What a call did: the lines it sent to [print], in order, and how it
    ended. *)
Record outcome : Type := mkOutcome
  { printed : list string;
    result : completion }.

(** [str.lower] on the code points below 256, used to instantiate the
    [lower] parameter of the recommender on concrete inputs: the letters
    A to Z and the capital letters from 192 to 222, the multiplication
    sign 215 apart, move up by 32. *)
Definition ascii_lower (c : ascii) : ascii :=
  let n := nat_of_ascii c in
  if ((65 <=? n) && (n <=? 90))
     || ((192 <=? n) && (n <=? 222) && negb (n =? 215))
  then ascii_of_nat (n + 32) else c.

Fixpoint str_lower (s : string) : string :=
  match s with
  | EmptyString => EmptyString
  | String c s' => String (ascii_lower c) (str_lower s')
  end.

(** [enumerate(l)]: the elements paired with their positions. *)
Fixpoint enumerate_from (A : Type) (n : nat) (l : list A) : list (nat * A) :=
  match l with
  | [] => []
  | x :: l' => (n, x) :: enumerate_from (S n) l'
  end.

Definition enumerate (A : Type) (l : list A) : list (nat * A) :=
  enumerate_from 0 l.

(** [sorted(l, reverse=True, key=key)].  Python's sort is stable, also
    with [reverse=True]: elements with equal keys keep their original
    order.  A stable descending sort is unique, so it is written as an
    insertion sort: [x], which stood before everything in [l], moves right
    only past elements whose key is strictly greater. *)
Fixpoint insert_desc (A : Type) (key : A -> Q) (x : A) (l : list A)
  : list A :=
  match l with
  | [] => [x]
  | y :: l' =>
      match (key x ?= key y)%Q with
      | Lt => y :: insert_desc key x l'
      | _ => x :: y :: l'
      end
  end.

Fixpoint sorted_reverse (A : Type) (key : A -> Q) (l : list A) : list A :=
  match l with
  | [] => []
  | x :: l' => insert_desc key x (sorted_reverse key l')
  end.

(** The slice [l[a:b]] for [0 <= a <= b]. *)
Definition slice (A : Type) (a b : nat) (l : list A) : list A :=
  firstn (b - a) (skipn a l).

End Py.

(** ** The recommender (movie notebook, section 11) *)

Module Recommender.
Import Py.

(** A row of the data frame [new = movies[['movie_id','title','tags']]].
    [index] is the row's pandas index label: the labels come from the merge
    and [dropna(inplace=True)] removes rows without renumbering the rest. *)
Record row : Type := mkRow
  { index : nat;
    movie_id : Z;
    title : string;
    tags : string }.

Definition not_found_message : string :=
  "Movie not found. Please check the spelling.".

Section Recommend.

(** [str.lower] *)
Variable lower : string -> string.
(** The globals [recommend] reads.  An entry of [similarity] is a finite
    float, hence a rational, and the code only compares entries. *)
Variable new : list row.
Variable similarity : list (list Q).

(** [new['title'].str.lower().values] *)
Definition lowered_titles : list string :=
  map (fun r => lower (title r)) new.

(** [movie in new['title'].str.lower().values] *)
Definition title_in (movie : string) : bool :=
  existsb (String.eqb movie) lowered_titles.

(** [new[new['title'].str.lower() == movie]] *)
Definition matching (movie : string) : list row :=
  filter (fun r => String.eqb (lower (title r)) movie) new.

(** [sorted(list(enumerate(distances)),reverse=True,key=lambda x:x[1])[1:6]] *)
Definition movies_list (distances : list Q) : list (nat * Q) :=
  slice 1 6 (sorted_reverse (fun x => snd x) (enumerate distances)).

(** The loop [for i in movies_list: print(new.iloc[i[0]].title)];
    [iloc] is positional and raises [IndexError] out of range. *)
Fixpoint print_titles (l : list (nat * Q)) (out : list string) : outcome :=
  match l with
  | [] => mkOutcome out (Returned PyNone)
  | i :: rest =>
      match nth_error new (fst i) with
      | Some r => print_titles rest (out ++ [title r])
      | None => mkOutcome out (Raised "IndexError")
      end
  end.

Definition recommend (movie : string) : outcome :=
  let movie := lower movie in
  if negb (title_in movie) then
    mkOutcome [] (Returned (PyStr not_found_message))
  else
    match matching movie with
    | [] => mkOutcome [] (Raised "IndexError")
    | r :: _ =>
        let index := index r in
        (* [similarity[index]]: a positional row of the matrix *)
        match nth_error similarity index with
        | None => mkOutcome [] (Raised "IndexError")
        | Some distances => print_titles (movies_list distances) []
        end
    end.

End Recommend.

(** The state the notebook reaches: [similarity] is the square matrix
    [cosine_similarity(vectors)] with one row and one column per row of
    [new]. *)
Definition square (new : list row) (similarity : list (list Q)) : Prop :=
  List.length similarity = List.length new /\
  Forall (fun distances => List.length distances = List.length new)
    similarity.

(** [a] is ranked before [b]: higher score, or equal score and smaller
    corpus position. *)
Definition ranked_before (a b : nat * Q) : Prop :=
  (snd b < snd a)%Q \/ ((snd a == snd b)%Q /\ fst a < fst b).


(** Three movies, none dropped.  The tags of the second hold stop words
    only, so its TF-IDF row is all-zero and so are its similarities; the
    other two share no term, so their similarity is zero as well. *)
Definition corpus3 : list row :=
  [ mkRow 0 11 "Alpha" "action hero save world";
    mkRow 1 12 "Beta" "the of and";
    mkRow 2 13 "Gamma" "romance drama love story" ].

Definition similarity3 : list (list Q) :=
  [ [1; 0; 0];
    [0; 0; 0];
    [0; 0; 1] ]%Q.

(** The index labels are the positions: no row was dropped since the merge
    numbered the rows. *)
Definition fresh_index (new : list row) : Prop :=
  map index new = seq 0 (List.length new).

(** Three movies left after [dropna] removed the row labelled 1; no two of
    them share a term. *)
Definition corpus_dropped : list row :=
  [ mkRow 0 11 "Alpha" "action hero save world";
    mkRow 2 13 "Gamma" "romance drama love story";
    mkRow 3 14 "Delta" "space war alien" ].

Definition similarity_dropped : list (list Q) :=
  [ [1; 0; 0];
    [0; 1; 0];
    [0; 0; 1] ]%Q.

End Recommender.

(** ** The feature assembler (movie notebook, sections 6 and 7) *)

Module FeatureAssembler.

(** An element of the list a [genres], [keywords], [cast] or [crew] cell
    holds once [ast.literal_eval] has parsed it: a dict, of which the
    notebook reads the keys ['name'] and, for crew, ['job']. *)
Record entry : Type := mkEntry
  { name : string;
    job : string }.

(** A row of [movies] after the merge and the column selection. *)
Record movie : Type := mkMovie
  { movie_id : Z;
    title : string;
    overview : string;
    genres : list entry;
    keywords : list entry;
    cast : list entry;
    crew : list entry }.

(** [extract_names]: every name, in order. *)
Fixpoint extract_names_loop (obj : list entry) (L : list string)
  : list string :=
  match obj with
  | [] => L
  | i :: rest => extract_names_loop rest (L ++ [name i])
  end.

Definition extract_names (obj : list entry) : list string :=
  extract_names_loop obj [].

(** [extract_cast]: the loop appends while [counter < 3] and breaks at the
    first element it meets with the counter at 3. *)
Fixpoint extract_cast_loop (obj : list entry) (L : list string)
  (counter : nat) : list string :=
  match obj with
  | [] => L
  | i :: rest =>
      if counter <? 3 then extract_cast_loop rest (L ++ [name i]) (counter + 1)
      else L
  end.

Definition extract_cast (obj : list entry) : list string :=
  extract_cast_loop obj [] 0.

(** [extract_director]: the loop appends the name of the first element
    whose job is ['Director'] and breaks. *)
Fixpoint extract_director_loop (obj : list entry) (L : list string)
  : list string :=
  match obj with
  | [] => L
  | i :: rest =>
      if String.eqb (job i) "Director" then L ++ [name i]
      else extract_director_loop rest L
  end.

Definition extract_director (obj : list entry) : list string :=
  extract_director_loop obj [].

(** [i.replace(" ","")] *)
Fixpoint remove_spaces (s : string) : string :=
  match s with
  | EmptyString => EmptyString
  | String c s' =>
      if Ascii.eqb c " "%char then remove_spaces s'
      else String c (remove_spaces s')
  end.

(** A character of the model stands for the code point of its number, so
    a string is a Python [str] whose code points lie below 256.  Among
    these [str.split()] treats as white space the ones for which
    [str.isspace] holds: tab to carriage return (9 to 13), the four
    separators and the space (28 to 32), NEL (133) and the no-break space
    (160). *)
Definition is_space (c : ascii) : bool :=
  let n := nat_of_ascii c in
  ((9 <=? n) && (n <=? 13)) || ((28 <=? n) && (n <=? 32))
  || (n =? 133) || (n =? 160).

(** [x.split()]: the maximal runs of non-space characters; [word] is the
    run being read. *)
Fixpoint split_from (s : string) (word : string) : list string :=
  match s with
  | EmptyString =>
      match word with EmptyString => [] | _ => [word] end
  | String c s' =>
      if is_space c then
        match word with
        | EmptyString => split_from s' EmptyString
        | _ => word :: split_from s' EmptyString
        end
      else split_from s' (word ++ String c EmptyString)%string
  end.

Definition split (s : string) : list string := split_from s EmptyString.

(** [" ".join(x)] *)
Fixpoint join (x : list string) : string :=
  match x with
  | [] => EmptyString
  | [w] => w
  | w :: rest => (w ++ " " ++ join rest)%string
  end.

(** The columns after section 6: names extracted and spaces removed. *)
Definition genres_column (m : movie) : list string :=
  map remove_spaces (extract_names (genres m)).
Definition keywords_column (m : movie) : list string :=
  map remove_spaces (extract_names (keywords m)).
Definition cast_column (m : movie) : list string :=
  map remove_spaces (extract_cast (cast m)).
Definition crew_column (m : movie) : list string :=
  map remove_spaces (extract_director (crew m)).

(** [movies['tags'] = movies['overview'] + movies['genres'] +
    movies['keywords'] + movies['cast'] + movies['crew']] *)
Definition tag_bag (m : movie) : list string :=
  split (overview m) ++ genres_column m ++ keywords_column m
    ++ cast_column m ++ crew_column m.

Definition avatar : movie :=
  mkMovie 19995 "Avatar" "A paraplegic  Marine"
    [mkEntry "Science Fiction" ""]
    [mkEntry "space war" ""]
    [mkEntry "Sam Worthington" ""; mkEntry "Zoe Saldana" "";
     mkEntry "Sigourney Weaver" ""; mkEntry "Stephen Lang" ""]
    [mkEntry "Stephen E. Rivkin" "Editor";
     mkEntry "James Cameron" "Director";
     mkEntry "Someone Else" "Director"].

End FeatureAssembler.

(** ** The spam notebook: cleaning, labels, training *)

Module SpamClassifier.

(** A row of [mail_data.csv]; [None] is a missing cell. *)
Record mail : Type := mkMail
  { Category : option string;
    Message : option string }.

Definition cell_eqb (a b : option string) : bool :=
  match a, b with
  | Some x, Some y => String.eqb x y
  | None, None => true
  | _, _ => false
  end.

Definition mail_eqb (a b : mail) : bool :=
  cell_eqb (Category a) (Category b) && cell_eqb (Message a) (Message b).

(** [df.dropna(inplace=True)]: rows with a missing cell go. *)
Definition dropna (df : list mail) : list mail :=
  filter (fun r =>
            match Category r, Message r with
            | Some _, Some _ => true
            | _, _ => false
            end) df.

(** [df.drop_duplicates(inplace=True)]: of equal rows the first stays. *)
Fixpoint drop_duplicates_from (seen : list mail) (df : list mail)
  : list mail :=
  match df with
  | [] => []
  | r :: rest =>
      if existsb (mail_eqb r) seen then drop_duplicates_from seen rest
      else r :: drop_duplicates_from (r :: seen) rest
  end.

Definition drop_duplicates (df : list mail) : list mail :=
  drop_duplicates_from [] df.

(** The frame after section 2.3. *)
Definition cleaned (df : list mail) : list mail :=
  drop_duplicates (dropna df).

(** The dict [{"spam": 1, "ham": 0}]. *)
Definition label_dict : list (string * Z) := [("spam", 1%Z); ("ham", 0%Z)].

Fixpoint dict_get (d : list (string * Z)) (k : string) : option Z :=
  match d with
  | [] => None
  | (k', v) :: d' => if String.eqb k k' then Some v else dict_get d' k
  end.

(** [Series.map(dict)] on one cell: a value that is not a key of the dict
    becomes NaN, here [None]; no exception is raised. *)
Definition map_label (c : option string) : option Z :=
  match c with
  | None => None
  | Some s => dict_get label_dict s
  end.

(** [df["label"]] after section 3.1, one cell per row of the frame. *)
Definition label_column (df : list mail) : list (option Z) :=
  map (fun r => map_label (Category r)) df.

(** The two data arguments of [train_test_split(X, df["label"], ...)]:
    [X] has one row per cell of [df["Message"]], in order. *)
Definition split_messages (df : list mail) : list (option string) :=
  map Message (cleaned df).

Definition split_labels (df : list mail) : list (option Z) :=
  label_column (cleaned df).

(** *** [LogisticRegression().fit(X_train, y_train)] *)

Section Training.

(** A row of the feature matrix, a fitted model, and the numeric
    optimiser that runs once the arguments are accepted. *)
Variable vector : Type.
Variable model : Type.
Variable solver : list vector -> list Z -> model.

Inductive fit_result : Type :=
| Fitted (m : model)
| FitRaised (cls : string).

Definition has_nan (y : list (option Z)) : bool :=
  existsb (fun v => match v with None => true | Some _ => false end) y.

Fixpoint values (y : list (option Z)) : list Z :=
  match y with
  | [] => []
  | Some v :: y' => v :: values y'
  | None :: y' => values y'
  end.

(** [np.unique(y)] *)
Definition classes (y : list (option Z)) : list Z :=
  nodup Z.eq_dec (values y).

(** scikit-learn validates the arguments before it optimises: [X] needs
    at least one sample, [y] must not hold NaN, both must have the same
    number of samples and [y] at least two classes; each failed check
    raises [ValueError]. *)
Definition fit (X : list vector) (y : list (option Z)) : fit_result :=
  if List.length X =? 0 then FitRaised "ValueError"
  else if has_nan y then FitRaised "ValueError"
  else if negb (List.length X =? List.length y) then FitRaised "ValueError"
  else if List.length (classes y) <? 2 then FitRaised "ValueError"
  else Fitted (solver X (values y)).

End Training.

Definition sample_mail : list mail :=
  [ mkMail (Some "ham") (Some "Hello, how are you?");
    mkMail (Some "Spam") (Some "You won a free iPhone!");
    mkMail (Some "spam") None;
    mkMail (Some "ham") (Some "Hello, how are you?");
    mkMail (Some "spam") (Some "Urgent! Enter your password now.") ].

End SpamClassifier.

(** ** TF-IDF encoding ([TfidfVectorizer.fit_transform]), over the reals *)

Module Tfidf.
Local Open Scope R_scope.

(** A document as the vectoriser's analyser hands it on: its terms. *)
Definition document : Type := list string.

Section Encoder.

(** The corpus the encoder is fitted on and the fitted vocabulary:
    feature [j] is the [j]-th term. *)
Variable corpus : list document.
Variable vocabulary : list string.

Definition n_samples : nat := List.length corpus.

Definition contains (t : string) (d : document) : bool :=
  existsb (String.eqb t) d.

(** Document frequency: the number of documents that hold [t]. *)
Definition df (t : string) : nat :=
  List.length (filter (contains t) corpus).

(** Term frequency: the raw count ([sublinear_tf=False]). *)
Definition tf (t : string) (d : document) : nat :=
  count_occ string_dec d t.

(** The notebooks leave [smooth_idf=True]: one is added to the document
    count and to every document frequency, and one to the logarithm. *)
Definition idf (t : string) : R :=
  ln ((1 + INR n_samples) / (1 + INR (df t))) + 1.

(** The fitted [idf_] array, one entry per feature. *)
Definition idf_ : list R := map idf vocabulary.

(** The fitted [vocabulary_] dict: term to feature index. *)
Fixpoint index_from (n : nat) (l : list string) (t : string)
  : option nat :=
  match l with
  | [] => None
  | t' :: l' => if String.eqb t t' then Some n else index_from (S n) l' t
  end.

Definition vocabulary_ (t : string) : option nat :=
  index_from 0 vocabulary t.

(** The row before normalisation: count times idf per feature. *)
Definition weights (d : document) : list R :=
  map (fun t => INR (tf t d) * idf t) vocabulary.

Definition sum_squares (v : list R) : R :=
  fold_right (fun x acc => x * x + acc) 0 v.

Definition l2_norm (v : list R) : R := sqrt (sum_squares v).

(** [norm='l2']: the row is divided by its Euclidean norm; a row whose
    norm is zero is skipped and stays as it is. *)
Definition normalize (v : list R) : list R :=
  let n := l2_norm v in
  if Req_dec_T n 0 then v else map (fun x => x / n) v.

Definition transform (d : document) : list R := normalize (weights d).

Definition fit_transform : list (list R) := map transform corpus.

(** The terms of [d] the vocabulary knows. *)
Definition in_vocabulary (d : document) : document :=
  filter (fun t => existsb (String.eqb t) vocabulary) d.

End Encoder.

End Tfidf.

(** ** The recommender of the deployment guide ([app.py]) *)

Module StreamlitApp.
Import Py Recommender.

(** What the guide's [recommend] hands to its caller: a list of strings,
    or an exception. *)
Inductive app_result : Type :=
| AppReturned (titles : list string)
| AppRaised (cls : string).

Section App.

Variable lower : string -> string.
Variable new : list row.
Variable similarity : list (list Q).

(** [[new.iloc[i[0]].title for i in movies_list]]: the comprehension
    yields nothing when one [iloc] raises. *)
Fixpoint titles_of (l : list (nat * Q)) : option (list string) :=
  match l with
  | [] => Some []
  | i :: rest =>
      match nth_error new (fst i) with
      | None => None
      | Some r =>
          match titles_of rest with
          | None => None
          | Some ts => Some (title r :: ts)
          end
      end
  end.

Definition recommend (movie : string) : app_result :=
  let movie := lower movie in
  if negb (title_in lower new movie) then AppReturned ["Movie not found"]
  else
    match matching lower new movie with
    | [] => AppRaised "IndexError"
    | r :: _ =>
        let index := index r in
        match nth_error similarity index with
        | None => AppRaised "IndexError"
        | Some distances =>
            match titles_of (movies_list distances) with
            | Some ts => AppReturned ts
            | None => AppRaised "IndexError"
            end
        end
    end.

End App.

End StreamlitApp.

(** ** From the merged frame to [new] (movie notebook, sections 4 to 8) *)

Module MoviePipeline.
Import Py FeatureAssembler.

(** A row of [movies] after the merge and the column selection; [None] is
    a missing cell. *)
Record merged : Type := mkMerged
  { m_movie_id : option Z;
    m_title : option string;
    m_overview : option string;
    m_genres : option (list entry);
    m_keywords : option (list entry);
    m_cast : option (list entry);
    m_crew : option (list entry) }.

(** The row when no cell is missing. *)
Definition complete (r : merged) : option movie :=
  match m_movie_id r, m_title r, m_overview r, m_genres r, m_keywords r,
        m_cast r, m_crew r with
  | Some i, Some t, Some o, Some g, Some k, Some c, Some w =>
      Some (mkMovie i t o g k c w)
  | _, _, _, _, _, _, _ => None
  end.

(** [movies.merge(credits, on='title')] numbers the rows of its result
    from 0. *)
Definition frame (rows : list merged) : list (nat * merged) :=
  enumerate rows.

(** [movies.dropna(inplace=True)]: rows with a missing cell go, the others
    keep their label. *)
Fixpoint dropna (l : list (nat * merged)) : list (nat * movie) :=
  match l with
  | [] => []
  | (i, r) :: l' =>
      match complete r with
      | Some m => (i, m) :: dropna l'
      | None => dropna l'
      end
  end.

Section New.

(** [str.lower] *)
Variable lower : string -> string.

(** The row of [new]: label, id, title and the tag bag joined by spaces
    and lowered. *)
Definition to_new (p : nat * movie) : Recommender.row :=
  Recommender.mkRow (fst p) (movie_id (snd p)) (title (snd p))
    (lower (join (tag_bag (snd p)))).

Definition build_new (rows : list merged) : list Recommender.row :=
  map to_new (dropna (frame rows)).

End New.

(** A merged frame of three rows whose second row lacks its overview. *)
Definition sample_rows : list merged :=
  [ mkMerged (Some 11%Z) (Some "Alpha") (Some "action hero")
      (Some [mkEntry "Action" ""]) (Some []) (Some []) (Some []);
    mkMerged (Some 12%Z) (Some "Beta") None
      (Some []) (Some []) (Some []) (Some []);
    mkMerged (Some 13%Z) (Some "Gamma") (Some "romance drama")
      (Some [mkEntry "Romance" ""]) (Some []) (Some []) (Some []) ].

Definition sample_similarity : list (list Q) := [ [1; 0]; [0; 1] ]%Q.

End MoviePipeline.

(** ** Words and white space *)

Module Text.
Import FeatureAssembler.

Fixpoint has_space (s : string) : bool :=
  match s with
  | EmptyString => false
  | String c s' => is_space c || has_space s'
  end.

Fixpoint has_blank (s : string) : bool :=
  match s with
  | EmptyString => false
  | String c s' => Ascii.eqb c " "%char || has_blank s'
  end.

Fixpoint all_space (s : string) : bool :=
  match s with
  | EmptyString => true
  | String c s' => is_space c && all_space s'
  end.

(** A word: not empty and free of white space. *)
Definition word (w : string) : Prop := w <> EmptyString /\ has_space w = false.

End Text.

(** ** The cleaning report of the spam notebook (section 2.3) *)

Module SpamReport.
Import SpamClassifier.

Definition missing_cells (r : mail) : nat :=
  (match Category r with None => 1 | Some _ => 0 end)
  + (match Message r with None => 1 | Some _ => 0 end).

(** [df.isnull().sum().sum()], the number printed as "Missing values". *)
Definition missing_values_sum (df : list mail) : nat :=
  list_sum (map missing_cells df).

(** [df.duplicated()]: a row is marked when an earlier row equals it. *)
Fixpoint duplicated_from (seen : list mail) (df : list mail) : list bool :=
  match df with
  | [] => []
  | r :: rest => existsb (mail_eqb r) seen :: duplicated_from (r :: seen) rest
  end.

(** The number of marks, given the rows seen so far. *)
Definition marked (seen df : list mail) : nat :=
  count_occ bool_dec (duplicated_from seen df) true.

(** [df.duplicated().sum()], the number printed as "Duplicate rows
    removed"; it is taken before [dropna] runs. *)
Definition duplicates (df : list mail) : nat := marked [] df.

End SpamReport.

(** ** [cosine_similarity(vectors)], over the reals *)

Module Cosine.
Import Tfidf.
Local Open Scope R_scope.

Fixpoint dot (u v : list R) : R :=
  match u, v with
  | x :: u', y :: v' => x * y + dot u' v'
  | _, _ => 0
  end.

(** The rows are normalised, then every pair of rows is multiplied. *)
Definition cosine_similarity (X : list (list R)) : list (list R) :=
  let Xn := map normalize X in
  map (fun u => map (fun v => dot u v) Xn) Xn.

(** The entry [M[i][j]], when there is one. *)
Definition entry (M : list (list R)) (i j : nat) : option R :=
  match nth_error M i with
  | Some row => nth_error row j
  | None => None
  end.

(** [similarity = cosine_similarity(vectors)] for a fitted corpus. *)
Definition similarity (corpus : list document) (vocabulary : list string)
  : list (list R) :=
  cosine_similarity (fit_transform corpus vocabulary).

End Cosine.

(** * Properties *)

Unset Implicit Arguments.

(** ** The recommender *)

Module RecommenderFacts.
Import Py Recommender.

Lemma title_in_false (lower : string -> string) (new : list row)
  (movie : string) :
  (forall r, In r new -> lower (title r) <> movie) ->
  title_in lower new movie = false.
Proof.
  intros H. unfold title_in, lowered_titles.
  destruct (existsb (String.eqb movie) (map (fun r => lower (title r)) new))
    eqn:E; [|reflexivity].
  apply existsb_exists in E. destruct E as (t & Hin & Heq).
  apply in_map_iff in Hin. destruct Hin as (r & Hr & Hin).
  apply String.eqb_eq in Heq.
  exfalso. apply (H r Hin). congruence.
Qed.

Lemma title_in_true (lower : string -> string) (new : list row)
  (movie : string) (r : row) :
  In r new -> lower (title r) = movie -> title_in lower new movie = true.
Proof.
  intros Hin Heq. unfold title_in, lowered_titles.
  apply existsb_exists. exists (lower (title r)). split.
  - apply in_map_iff. exists r. auto.
  - apply String.eqb_eq. auto.
Qed.

(** *** Facts on the stable descending sort *)

Lemma in_insert_desc (A : Type) (key : A -> Q) (x y : A) (l : list A) :
  In y (insert_desc key x l) <-> y = x \/ In y l.
Proof.
  induction l as [|z l IH]; simpl.
  - intuition.
  - destruct (key x ?= key z)%Q; simpl; try rewrite IH; intuition.
Qed.

Lemma in_sorted_reverse (A : Type) (key : A -> Q) (y : A) (l : list A) :
  In y (sorted_reverse key l) <-> In y l.
Proof.
  induction l as [|x l IH]; simpl.
  - tauto.
  - rewrite in_insert_desc, IH. intuition.
Qed.

Lemma length_insert_desc (A : Type) (key : A -> Q) (x : A) (l : list A) :
  List.length (insert_desc key x l) = S (List.length l).
Proof.
  induction l as [|z l IH]; simpl; [reflexivity|].
  destruct (key x ?= key z)%Q; simpl; auto.
Qed.

Lemma length_sorted_reverse (A : Type) (key : A -> Q) (l : list A) :
  List.length (sorted_reverse key l) = List.length l.
Proof.
  induction l as [|x l IH]; simpl; [reflexivity|].
  rewrite length_insert_desc. auto.
Qed.

Lemma ranked_before_step (x y z : nat * Q) :
  ~ (snd x < snd y)%Q -> fst x < fst z -> ranked_before y z ->
  ranked_before x z.
Proof.
  unfold ranked_before. intros Hxy Hlt Hyz.
  destruct (Qlt_le_dec (snd z) (snd x)) as [Hl|Hl]; [left; exact Hl|].
  right. split; [|exact Hlt].
  destruct Hyz as [Hyz|[Hyz _]]; lra.
Qed.

Lemma sorted_insert_desc (x : nat * Q) (l : list (nat * Q)) :
  Forall (fun y => fst x < fst y) l ->
  StronglySorted ranked_before l ->
  StronglySorted ranked_before (insert_desc (fun p => snd p) x l).
Proof.
  induction l as [|y l IH]; intros Hx Hs; simpl.
  - constructor; constructor.
  - inversion Hx as [|? ? Hxy Hxl]; subst.
    inversion Hs as [|? ? Hsl Hyl]; subst.
    destruct (snd x ?= snd y)%Q eqn:E.
    + apply Qeq_alt in E. constructor; [exact Hs|].
      constructor.
      * right. split; assumption.
      * rewrite Forall_forall in *. intros z Hz.
        apply ranked_before_step with y; [lra|auto|auto].
    + apply Qlt_alt in E. constructor.
      * apply IH; assumption.
      * rewrite Forall_forall in *. intros z Hz.
        apply in_insert_desc in Hz. destruct Hz as [->|Hz].
        -- left. exact E.
        -- auto.
    + apply Qgt_alt in E. constructor; [exact Hs|].
      constructor.
      * left. exact E.
      * rewrite Forall_forall in *. intros z Hz.
        apply ranked_before_step with y; [lra|auto|auto].
Qed.

Lemma enumerate_from_fst (A : Type) (n : nat) (l : list A) (p : nat * A) :
  In p (enumerate_from n l) -> n <= fst p.
Proof.
  revert n. induction l as [|x l IH]; simpl; intros n H; [contradiction|].
  destruct H as [<-|H]; simpl; [lia|].
  apply IH in H. lia.
Qed.

Lemma enumerate_from_nth (A : Type) (n : nat) (l : list A) (i : nat)
  (x : A) :
  In (i, x) (enumerate_from n l) <-> n <= i /\ nth_error l (i - n) = Some x.
Proof.
  revert n. induction l as [|y l IH]; simpl; intros n.
  - split; [contradiction|]. intros [_ H]. destruct (i - n); discriminate.
  - split.
    + intros [H|H].
      * inversion H; subst. rewrite Nat.sub_diag. simpl. auto.
      * apply IH in H. destruct H as [Hle H].
        split; [lia|].
        replace (i - n) with (S (i - S n)) by lia. exact H.
    + intros [Hle H]. destruct (i - n) as [|k] eqn:E.
      * left. simpl in H. inversion H. f_equal. lia.
      * right. apply IH. split; [lia|].
        replace (i - S n) with k by lia. exact H.
Qed.

Lemma sorted_enumerate_from (n : nat) (l : list Q) :
  StronglySorted ranked_before
    (sorted_reverse (fun p => snd p) (enumerate_from n l)).
Proof.
  revert n. induction l as [|x l IH]; intros n; simpl.
  - constructor.
  - apply sorted_insert_desc; [|apply IH].
    rewrite Forall_forall. intros y Hy.
    apply in_sorted_reverse in Hy. apply enumerate_from_fst in Hy.
    simpl. lia.
Qed.

Lemma StronglySorted_app_inv (A : Type) (R : A -> A -> Prop)
  (l1 l2 : list A) :
  StronglySorted R (l1 ++ l2) -> StronglySorted R l1 /\ StronglySorted R l2.
Proof.
  induction l1 as [|x l1 IH]; simpl; intros H.
  - split; [constructor|exact H].
  - inversion H as [|? ? Hs Hf]; subst.
    destruct (IH Hs) as [H1 H2]. split; [|exact H2].
    constructor; [exact H1|].
    apply Forall_app in Hf. tauto.
Qed.

Lemma StronglySorted_slice (A : Type) (R : A -> A -> Prop) (a b : nat)
  (l : list A) :
  StronglySorted R l -> StronglySorted R (slice a b l).
Proof.
  intros H. unfold slice.
  rewrite <- (firstn_skipn a l) in H.
  apply StronglySorted_app_inv in H. destruct H as [_ H].
  rewrite <- (firstn_skipn (b - a) (skipn a l)) in H.
  apply StronglySorted_app_inv in H. tauto.
Qed.

Lemma in_slice (A : Type) (a b : nat) (l : list A) (x : A) :
  In x (slice a b l) -> In x l.
Proof.
  unfold slice. intros H.
  rewrite <- (firstn_skipn a l). apply in_or_app. right.
  rewrite <- (firstn_skipn (b - a) (skipn a l)). apply in_or_app. left.
  exact H.
Qed.

Lemma movies_list_sorted (distances : list Q) :
  StronglySorted ranked_before (movies_list distances).
Proof.
  unfold movies_list, enumerate.
  apply StronglySorted_slice. apply sorted_enumerate_from.
Qed.

Lemma movies_list_entries (distances : list Q) (i : nat) (s : Q) :
  In (i, s) (movies_list distances) -> nth_error distances i = Some s.
Proof.
  unfold movies_list, enumerate. intros H.
  apply in_slice in H. apply in_sorted_reverse in H.
  apply enumerate_from_nth in H. destruct H as [_ H].
  rewrite Nat.sub_0_r in H. exact H.
Qed.

Lemma movies_list_length (distances : list Q) :
  List.length (movies_list distances) <= 5.
Proof.
  unfold movies_list, slice. apply (firstn_le_length (6 - 1)).
Qed.


Lemma matching_head (lower : string -> string) (new : list row)
  (movie : string) (r : row) (rest : list row) :
  matching lower new movie = r :: rest ->
  In r new /\ lower (title r) = movie.
Proof.
  intros H.
  assert (Hin : In r (matching lower new movie)) by (rewrite H; left; auto).
  unfold matching in Hin. apply filter_In in Hin.
  destruct Hin as [Hin Heq]. apply String.eqb_eq in Heq. auto.
Qed.

Lemma title_in_matching (lower : string -> string) (new : list row)
  (movie : string) :
  title_in lower new movie = true ->
  exists r rest, matching lower new movie = r :: rest.
Proof.
  unfold title_in, lowered_titles. intros H.
  apply existsb_exists in H. destruct H as (t & Hin & Heq).
  apply in_map_iff in Hin. destruct Hin as (r & Hr & Hin).
  apply String.eqb_eq in Heq.
  assert (Hm : In r (matching lower new movie)).
  { unfold matching. apply filter_In. split; [exact Hin|].
    apply String.eqb_eq. congruence. }
  destruct (matching lower new movie) as [|r0 rest]; [contradiction|].
  exists r0, rest. reflexivity.
Qed.

Lemma fresh_index_position (new : list row) (r : row) :
  fresh_index new -> In r new -> nth_error new (index r) = Some r.
Proof.
  unfold fresh_index. intros Hf Hin.
  apply In_nth_error in Hin. destruct Hin as [p Hp].
  assert (Hlt : p < List.length new).
  { apply nth_error_Some. congruence. }
  assert (Hi : nth_error (map index new) p = Some (index r)).
  { rewrite nth_error_map, Hp. reflexivity. }
  rewrite Hf, nth_error_seq in Hi.
  destruct (p <? List.length new) eqn:E.
  - simpl in Hi. inversion Hi as [Hi']. rewrite <- Hi'. exact Hp.
  - apply Nat.ltb_ge in E. lia.
Qed.

(** The printing loop, when every position it reads exists. *)
Lemma print_titles_in_range (new : list row) (l : list (nat * Q))
  (out : list string) :
  Forall (fun x => fst x < List.length new) l ->
  exists titles,
    print_titles new l out = mkOutcome (out ++ titles) (Returned PyNone) /\
    Forall2 (fun x t => exists r, nth_error new (fst x) = Some r /\
                                  title r = t) l titles.
Proof.
  revert out. induction l as [|x l IH]; intros out H; simpl.
  - exists []. rewrite app_nil_r. split; constructor.
  - inversion H as [|? ? Hx Hl]; subst.
    destruct (nth_error new (fst x)) as [r|] eqn:E.
    + destruct (IH (out ++ [title r]) Hl) as (titles & Hp & Hf).
      exists (title r :: titles). split.
      * rewrite Hp. rewrite <- app_assoc. reflexivity.
      * constructor; [exists r; auto|exact Hf].
    + apply nth_error_None in E. lia.
Qed.

Lemma ranked_before_descending (l : list (nat * Q)) :
  StronglySorted ranked_before l ->
  StronglySorted (fun a b => (snd b <= snd a)%Q) l.
Proof.
  induction 1 as [|a l Hs IH Hf]; constructor; [exact IH|].
  rewrite Forall_forall in *. intros b Hb.
  destruct (Hf b Hb) as [Hlt|[Heq _]]; lra.
Qed.

End RecommenderFacts.

Module RecommenderClaims.
Import Py Recommender RecommenderFacts.

(** C1 (as the notebook has it).  For every title with no
    case-insensitive exact match among the corpus titles, [recommend]
    prints nothing and returns the string
    ["Movie not found. Please check the spelling."]: the miss is reported
    as a returned [str], not as a typed result, and no recommendation is
    made. *)
Theorem recommend_no_match_returns_message
  (lower : string -> string) (new : list row) (similarity : list (list Q))
  (movie : string) :
  (forall r, In r new -> lower (title r) <> lower movie) ->
  recommend lower new similarity movie
  = mkOutcome [] (Returned (PyStr not_found_message)).
Proof.
  intros H. unfold recommend.
  rewrite (title_in_false lower new (lower movie) H). reflexivity.
Qed.

Lemma recommend_no_match_witness :
  recommend str_lower corpus3 similarity3 "Nonexistent Movie"
  = mkOutcome [] (Returned (PyStr not_found_message)).
Proof.
  apply recommend_no_match_returns_message.
  intros r Hr. simpl in Hr.
  destruct Hr as [<-|[<-|[<-|[]]]]; vm_compute; intros E; discriminate E.
Defined.

(** C1, counterexample.  ["Nonexistent Movie"] matches no title of the
    three-movie corpus, and what [recommend] returns for it is a Python
    string carrying the error text. *)
Lemma recommend_nonexistent_is_error_string :
  title_in str_lower corpus3 (str_lower "Nonexistent Movie") = false /\
  result (recommend str_lower corpus3 similarity3 "Nonexistent Movie")
  = Returned (PyStr "Movie not found. Please check the spelling.").
Proof. split; reflexivity. Qed.

(** C4, evaluated.  The tags of "Beta" share no term with the vocabulary,
    so its row of the similarity matrix is all-zero; the stable sort
    leaves the row in index order, the slice [[1:6]] drops position 0
    ("Alpha") and the query for "Beta" lists "Beta" itself first. *)
Theorem recommend_beta_lists_itself :
  recommend str_lower corpus3 similarity3 "Beta"
  = mkOutcome ["Beta"; "Gamma"] (Returned PyNone).
Proof. reflexivity. Qed.

(** The same with a dropped row: "Gamma" keeps the label 2 but stands at
    position 1, [similarity[2]] is the row of "Delta", and the query for
    "Gamma" lists "Gamma"; the query for "Delta", labelled 3, raises. *)
Lemma recommend_after_dropna :
  recommend str_lower corpus_dropped similarity_dropped "Gamma"
  = mkOutcome ["Alpha"; "Gamma"] (Returned PyNone) /\
  recommend str_lower corpus_dropped similarity_dropped "Delta"
  = mkOutcome [] (Raised "IndexError").
Proof. split; reflexivity. Qed.



(** C6, counterexample.  "ALPHA" matches the title "Alpha", and the call
    returns [None]: the two titles are printed, not returned. *)
Lemma recommend_alpha_returns_none :
  title_in str_lower corpus3 (str_lower "ALPHA") = true /\
  recommend str_lower corpus3 similarity3 "ALPHA"
  = mkOutcome ["Beta"; "Gamma"] (Returned PyNone).
Proof. split; reflexivity. Qed.

(** C6 (as the notebook has it).  When the index labels of [new] are the
    positions and [similarity] is the square matrix over [new], then for
    every title that matches a corpus title [recommend] returns [None]
    and prints at most 5 titles: the titles of the movies at places 2 to
    6 of the ranking of the first matching movie's similarity row, in
    descending order of score. *)
Theorem recommend_match_prints_ranked
  (lower : string -> string) (new : list row) (similarity : list (list Q))
  (movie : string) :
  square new similarity ->
  fresh_index new ->
  title_in lower new (lower movie) = true ->
  exists r rest distances,
    matching lower new (lower movie) = r :: rest /\
    nth_error new (index r) = Some r /\
    nth_error similarity (index r) = Some distances /\
    result (recommend lower new similarity movie) = Returned PyNone /\
    Forall2 (fun x t => exists r', nth_error new (fst x) = Some r' /\
                                   title r' = t)
      (movies_list distances)
      (printed (recommend lower new similarity movie)) /\
    List.length (printed (recommend lower new similarity movie)) <= 5 /\
    StronglySorted (fun a b => (snd b <= snd a)%Q) (movies_list distances) /\
    Forall (fun x => nth_error distances (fst x) = Some (snd x))
      (movies_list distances).
Proof.
  intros [Hrows Hcols] Hfresh Hin.
  destruct (title_in_matching lower new _ Hin) as (r & rest & Hm).
  destruct (matching_head lower new _ r rest Hm) as [Hr Ht].
  pose proof (fresh_index_position new r Hfresh Hr) as Hpos.
  assert (Hlt : index r < List.length similarity).
  { rewrite Hrows. apply nth_error_Some. congruence. }
  destruct (nth_error similarity (index r)) as [distances|] eqn:Hd;
    [|apply nth_error_None in Hd; lia].
  assert (Hlen : List.length distances = List.length new).
  { rewrite Forall_forall in Hcols. apply Hcols.
    apply nth_error_In with (index r). exact Hd. }
  assert (Hentries : Forall (fun x => nth_error distances (fst x)
                                      = Some (snd x))
                       (movies_list distances)).
  { rewrite Forall_forall. intros [i s] Hx.
    apply movies_list_entries. exact Hx. }
  assert (Hrange : Forall (fun x => fst x < List.length new)
                     (movies_list distances)).
  { rewrite Forall_forall in *. intros x Hx.
    rewrite <- Hlen. apply nth_error_Some. rewrite (Hentries x Hx).
    discriminate. }
  destruct (print_titles_in_range new _ [] Hrange) as (titles & Hp & Hf).
  exists r, rest, distances.
  unfold recommend. rewrite Hin, Hm. simpl. rewrite Hd, Hp. simpl.
  repeat split; auto.
  - rewrite <- (Forall2_length Hf). apply movies_list_length.
  - apply ranked_before_descending. apply movies_list_sorted.
Qed.

Lemma recommend_match_witness :
  exists r rest distances,
    matching str_lower corpus3 (str_lower "ALPHA") = r :: rest /\
    nth_error corpus3 (index r) = Some r /\
    nth_error similarity3 (index r) = Some distances /\
    result (recommend str_lower corpus3 similarity3 "ALPHA")
    = Returned PyNone /\
    Forall2 (fun x t => exists r', nth_error corpus3 (fst x) = Some r' /\
                                   title r' = t)
      (movies_list distances)
      (printed (recommend str_lower corpus3 similarity3 "ALPHA")) /\
    List.length (printed (recommend str_lower corpus3 similarity3 "ALPHA"))
    <= 5 /\
    StronglySorted (fun a b => (snd b <= snd a)%Q) (movies_list distances) /\
    Forall (fun x => nth_error distances (fst x) = Some (snd x))
      (movies_list distances).
Proof.
  apply recommend_match_prints_ranked.
  - split; [reflexivity|]. repeat constructor.
  - reflexivity.
  - reflexivity.
Defined.

End RecommenderClaims.

(** ** The feature assembler *)

Module FeatureAssemblerFacts.
Import FeatureAssembler.

Lemma extract_names_loop_spec (obj : list entry) (L : list string) :
  extract_names_loop obj L = L ++ map name obj.
Proof.
  revert L. induction obj as [|i rest IH]; intros L; simpl.
  - rewrite app_nil_r. reflexivity.
  - rewrite IH, <- app_assoc. reflexivity.
Qed.

Lemma extract_cast_loop_spec (obj : list entry) (L : list string)
  (counter : nat) :
  extract_cast_loop obj L counter
  = L ++ map name (firstn (3 - counter) obj).
Proof.
  revert L counter.
  induction obj as [|i rest IH]; intros L counter;
    cbn [extract_cast_loop].
  - rewrite firstn_nil. cbn [map]. rewrite app_nil_r. reflexivity.
  - destruct (counter <? 3) eqn:E.
    + apply Nat.ltb_lt in E. rewrite IH, <- app_assoc.
      replace (3 - counter) with (S (3 - (counter + 1))) by lia.
      reflexivity.
    + apply Nat.ltb_ge in E.
      replace (3 - counter) with 0 by lia.
      cbn [firstn map]. rewrite app_nil_r. reflexivity.
Qed.

Lemma extract_cast_spec (obj : list entry) :
  extract_cast obj = map name (firstn 3 obj).
Proof. unfold extract_cast. rewrite extract_cast_loop_spec. reflexivity. Qed.

Lemma extract_director_loop_spec (obj : list entry) (L : list string) :
  (Forall (fun i => job i <> "Director") obj /\
   extract_director_loop obj L = L) \/
  (exists pre e post,
      obj = pre ++ e :: post /\
      Forall (fun i => job i <> "Director") pre /\
      job e = "Director" /\
      extract_director_loop obj L = L ++ [name e]).
Proof.
  induction obj as [|i rest IH]; simpl.
  - left. split; [constructor|reflexivity].
  - destruct (String.eqb (job i) "Director") eqn:E.
    + apply String.eqb_eq in E. right.
      exists [], i, rest. repeat split; auto.
    + apply String.eqb_neq in E.
      destruct IH as [[Hnone Hl]|(pre & e & post & Hobj & Hpre & He & Hl)].
      * left. split; [constructor; assumption|exact Hl].
      * right. exists (i :: pre), e, post. subst rest.
        repeat split; auto.
Qed.

End FeatureAssemblerFacts.

Module FeatureAssemblerClaims.
Import FeatureAssembler FeatureAssemblerFacts.

(** C9.  For every movie record the cast column of the tag bag holds the
    names of the first three cast entries at most, in source order, and
    the crew column holds one name at most, that of the first crew entry
    whose job is 'Director' (spaces removed from each name); the tag bag
    is the overview words, the genres, the keywords and these two
    columns, so later cast members and the other crew entries add
    nothing to it. *)
Theorem tag_bag_cast_and_director (m : movie) :
  cast_column m = map remove_spaces (map name (firstn 3 (cast m))) /\
  List.length (cast_column m) <= 3 /\
  ((Forall (fun i => job i <> "Director") (crew m) /\ crew_column m = []) \/
   (exists pre e post,
       crew m = pre ++ e :: post /\
       Forall (fun i => job i <> "Director") pre /\
       job e = "Director" /\
       crew_column m = [remove_spaces (name e)])) /\
  List.length (crew_column m) <= 1 /\
  tag_bag m
  = split (overview m) ++ genres_column m ++ keywords_column m
      ++ map remove_spaces (map name (firstn 3 (cast m)))
      ++ crew_column m.
Proof.
  assert (Hcast : cast_column m
                  = map remove_spaces (map name (firstn 3 (cast m)))).
  { unfold cast_column. rewrite extract_cast_spec. reflexivity. }
  assert (Hcrew :
    (Forall (fun i => job i <> "Director") (crew m) /\ crew_column m = []) \/
    (exists pre e post,
        crew m = pre ++ e :: post /\
        Forall (fun i => job i <> "Director") pre /\
        job e = "Director" /\
        crew_column m = [remove_spaces (name e)])).
  { unfold crew_column, extract_director.
    destruct (extract_director_loop_spec (crew m) [])
      as [[Hnone Hl]|(pre & e & post & Hobj & Hpre & He & Hl)].
    - left. rewrite Hl. split; [exact Hnone|reflexivity].
    - right. exists pre, e, post. rewrite Hl. repeat split; auto. }
  split; [exact Hcast|]. split.
  { rewrite Hcast. rewrite !length_map. apply firstn_le_length. }
  split; [exact Hcrew|]. split.
  { destruct Hcrew as [[_ ->]|(pre & e & post & _ & _ & _ & ->)];
      simpl; lia. }
  unfold tag_bag. rewrite Hcast. reflexivity.
Qed.

(** The tag bag of a record with four cast entries and two directors. *)
Example tag_bag_avatar :
  tag_bag avatar
  = ["A"; "paraplegic"; "Marine"; "ScienceFiction"; "spacewar";
     "SamWorthington"; "ZoeSaldana"; "SigourneyWeaver"; "JamesCameron"].
Proof. reflexivity. Qed.

End FeatureAssemblerClaims.

(** ** The spam notebook *)

Module SpamClassifierFacts.
Import SpamClassifier.

Lemma cell_eqb_eq (a b : option string) : cell_eqb a b = true <-> a = b.
Proof.
  destruct a as [x|], b as [y|]; simpl; split; intros H;
    try discriminate; try reflexivity.
  - apply String.eqb_eq in H. congruence.
  - inversion H. apply String.eqb_refl.
Qed.

Lemma mail_eqb_eq (a b : mail) : mail_eqb a b = true <-> a = b.
Proof.
  unfold mail_eqb. rewrite andb_true_iff, !cell_eqb_eq.
  destruct a, b; simpl. split.
  - intros [-> ->]. reflexivity.
  - intros H. inversion H. auto.
Qed.

(** A row is either already seen or survives [drop_duplicates]. *)
Lemma drop_duplicates_from_keeps (seen df : list mail) (r : mail) :
  In r df ->
  existsb (mail_eqb r) seen = true \/ In r (drop_duplicates_from seen df).
Proof.
  revert seen. induction df as [|x rest IH]; intros seen Hin; simpl.
  - contradiction.
  - destruct (existsb (mail_eqb x) seen) eqn:E.
    + destruct Hin as [->|Hin]; [left; exact E|apply IH; exact Hin].
    + destruct Hin as [->|Hin]; [right; left; reflexivity|].
      destruct (IH (x :: seen) Hin) as [H|H].
      * simpl in H. apply orb_true_iff in H. destruct H as [H|H].
        -- apply mail_eqb_eq in H. right. left. congruence.
        -- left. exact H.
      * right. right. exact H.
Qed.

Lemma cleaned_keeps (df : list mail) (r : mail) (c m : string) :
  In r df -> Category r = Some c -> Message r = Some m ->
  In r (cleaned df).
Proof.
  intros Hin Hc Hm. unfold cleaned, drop_duplicates.
  assert (Hd : In r (dropna df)).
  { unfold dropna. apply filter_In. split; [exact Hin|].
    rewrite Hc, Hm. reflexivity. }
  destruct (drop_duplicates_from_keeps [] (dropna df) r Hd) as [H|H].
  - discriminate H.
  - exact H.
Qed.

Lemma dict_get_other (c : string) :
  c <> "spam" -> c <> "ham" -> dict_get label_dict c = None.
Proof.
  intros Hs Hh. simpl.
  apply String.eqb_neq in Hs. apply String.eqb_neq in Hh.
  rewrite Hs, Hh. reflexivity.
Qed.

End SpamClassifierFacts.

Module SpamClassifierClaims.
Import SpamClassifier SpamClassifierFacts.

(** C10.  The label conversion maps the Category 'spam' to 1 and 'ham'
    to 0 and every other Category to a missing label (NaN) without
    raising.  No row is filtered between the conversion and the split:
    the two data arguments of [train_test_split] have one entry per row
    of the frame the conversion ran on, and at the position of a row
    stand its message and the label of its Category, which is missing
    when the Category is neither 'spam' nor 'ham'. *)
Theorem label_conversion_keeps_other_rows :
  map_label (Some "spam") = Some 1%Z /\
  map_label (Some "ham") = Some 0%Z /\
  (forall c, c <> "spam" -> c <> "ham" -> map_label (Some c) = None) /\
  (forall df, List.length (split_labels df) = List.length (cleaned df) /\
              List.length (split_messages df) = List.length (cleaned df)) /\
  (forall df p r,
      nth_error (cleaned df) p = Some r ->
      nth_error (split_labels df) p = Some (map_label (Category r)) /\
      nth_error (split_messages df) p = Some (Message r)) /\
  (forall df p r c,
      nth_error (cleaned df) p = Some r ->
      Category r = Some c -> c <> "spam" -> c <> "ham" ->
      nth_error (split_labels df) p = Some None /\
      nth_error (split_messages df) p = Some (Message r)).
Proof.
  assert (Hpos : forall df p r,
             nth_error (cleaned df) p = Some r ->
             nth_error (split_labels df) p = Some (map_label (Category r)) /\
             nth_error (split_messages df) p = Some (Message r)).
  { intros df p r Hp. unfold split_labels, split_messages, label_column.
    rewrite !nth_error_map, Hp. split; reflexivity. }
  split; [reflexivity|]. split; [reflexivity|]. split.
  { intros c Hs Hh. simpl. apply dict_get_other; assumption. }
  split.
  { intros df. unfold split_labels, split_messages, label_column.
    rewrite !length_map. split; reflexivity. }
  split; [exact Hpos|].
  intros df p r c Hp Hc Hs Hh.
  destruct (Hpos df p r Hp) as [Hl Hm]. split; [|exact Hm].
  rewrite Hl, Hc. simpl. f_equal. apply dict_get_other; assumption.
Qed.

Lemma label_conversion_witness :
  nth_error (split_labels sample_mail) 1 = Some None /\
  nth_error (split_messages sample_mail) 1
  = Some (Message (mkMail (Some "Spam") (Some "You won a free iPhone!"))).
Proof.
  apply (proj2 (proj2 (proj2 (proj2 (proj2
           label_conversion_keeps_other_rows))))
           sample_mail 1
           (mkMail (Some "Spam") (Some "You won a free iPhone!"))
           "Spam").
  - reflexivity.
  - reflexivity.
  - intros E. discriminate E.
  - intros E. discriminate E.
Defined.

(** C8, counterexample.  One vector with two labels, and an empty
    training set: [fit] raises [ValueError] for both, which is neither
    [LabelMismatchError] nor [EmptyTrainingSetError]. *)
Lemma fit_raises_value_error :
  fit (fun _ _ => tt) [tt] [Some 1%Z; Some 0%Z] = FitRaised unit "ValueError" /\
  FitRaised unit "ValueError" <> FitRaised unit "LabelMismatchError" /\
  fit (fun _ _ => tt) (@nil unit) [] = FitRaised unit "ValueError" /\
  FitRaised unit "ValueError" <> FitRaised unit "EmptyTrainingSetError".
Proof.
  repeat split; try reflexivity; intros E; discriminate E.
Qed.

(** C8 (as the notebook has it).  Training raises [ValueError], the
    exception of scikit-learn's argument validation, whenever the number
    of training vectors differs from the number of labels or either is
    empty; the optimiser does not run and no model is produced. *)
Theorem fit_rejects_mismatch_and_empty
  (vector model : Type) (solver : list vector -> list Z -> model)
  (X : list vector) (y : list (option Z)) :
  List.length X <> List.length y \/ X = [] \/ y = [] ->
  fit solver X y = FitRaised model "ValueError" /\
  (forall m, fit solver X y <> Fitted m).
Proof.
  intros H.
  assert (E : fit solver X y = FitRaised model "ValueError").
  { unfold fit.
    destruct (List.length X =? 0) eqn:E0; [reflexivity|].
    destruct (has_nan y); [reflexivity|].
    destruct (List.length X =? List.length y) eqn:E1; [|reflexivity].
    exfalso. apply Nat.eqb_neq in E0. apply Nat.eqb_eq in E1.
    destruct H as [H|[H|H]].
    - contradiction.
    - subst X. apply E0. reflexivity.
    - subst y. simpl in E1. contradiction. }
  split; [exact E|]. intros m. rewrite E. discriminate.
Qed.

Lemma fit_rejects_witness :
  fit (fun _ _ => tt) [tt] [Some 1%Z; Some 0%Z] = FitRaised unit "ValueError" /\
  (forall m, fit (fun _ _ => tt) [tt] [Some 1%Z; Some 0%Z] <> Fitted m).
Proof.
  apply fit_rejects_mismatch_and_empty.
  left. simpl. lia.
Defined.

End SpamClassifierClaims.

(** ** TF-IDF encoding *)

Module TfidfFacts.
Import Tfidf.
Local Open Scope R_scope.

Lemma df_le_n_samples (corpus : list document) (t : string) :
  (df corpus t <= n_samples corpus)%nat.
Proof. unfold df, n_samples. apply filter_length_le. Qed.

(** The smoothed idf is never below one. *)
Lemma idf_ge_1 (corpus : list document) (t : string) : 1 <= idf corpus t.
Proof.
  unfold idf.
  pose proof (df_le_n_samples corpus t) as Hle.
  apply le_INR in Hle.
  pose proof (pos_INR (df corpus t)) as Hpos.
  set (a := INR (n_samples corpus)) in *.
  set (b := INR (df corpus t)) in *.
  assert (Hq : 1 <= (1 + a) / (1 + b)).
  { apply Rmult_le_reg_r with (1 + b); [lra|].
    unfold Rdiv. rewrite Rmult_assoc, Rinv_l; lra. }
  assert (Hln : 0 <= ln ((1 + a) / (1 + b))).
  { destruct Hq as [Hlt|Heq].
    - rewrite <- ln_1. left. apply ln_increasing; lra.
    - rewrite <- Heq, ln_1. lra. }
  lra.
Qed.

Lemma sum_squares_nonneg (v : list R) : 0 <= sum_squares v.
Proof.
  induction v as [|x v IH]; simpl; [lra|].
  pose proof (Rle_0_sqr x) as H. unfold Rsqr in H. lra.
Qed.

Lemma sum_squares_pos (v : list R) (x : R) :
  In x v -> x <> 0 -> 0 < sum_squares v.
Proof.
  induction v as [|y v IH]; simpl; intros Hin Hx; [contradiction|].
  pose proof (sum_squares_nonneg v) as Hv.
  destruct Hin as [->|Hin].
  - pose proof (Rsqr_pos_lt x Hx) as H. unfold Rsqr in H. lra.
  - pose proof (IH Hin Hx) as H.
    pose proof (Rle_0_sqr y) as Hy. unfold Rsqr in Hy. lra.
Qed.

Lemma sum_squares_scaled (v : list R) (n : R) :
  n <> 0 ->
  sum_squares (map (fun x => x / n) v) = sum_squares v / (n * n).
Proof.
  intros Hn. induction v as [|x v IH]; simpl.
  - unfold Rdiv. rewrite Rmult_0_l. reflexivity.
  - rewrite IH. field. exact Hn.
Qed.

Lemma normalize_unit (v : list R) :
  0 < sum_squares v -> l2_norm (normalize v) = 1.
Proof.
  intros Hpos. unfold normalize, l2_norm.
  pose proof (sqrt_lt_R0 _ Hpos) as Hn.
  destruct (Req_dec_T (sqrt (sum_squares v)) 0) as [E|E]; [lra|].
  fold (l2_norm (map (fun x => x / sqrt (sum_squares v)) v)).
  unfold l2_norm.
  rewrite sum_squares_scaled by exact E.
  rewrite sqrt_sqrt by lra.
  unfold Rdiv. rewrite Rinv_r by lra. apply sqrt_1.
Qed.

Lemma normalize_zero (v : list R) :
  Forall (fun x => x = 0) v -> normalize v = repeat 0 (List.length v).
Proof.
  intros Hz. unfold normalize.
  destruct (Req_dec_T (l2_norm v) 0) as [_|_].
  - induction Hz as [|x v Hx Hv IH]; simpl; [reflexivity|].
    rewrite <- IH. subst x. reflexivity.
  - generalize (l2_norm v). intros n.
    induction Hz as [|x v Hx Hv IH]; simpl; [reflexivity|].
    rewrite IH. subst x. f_equal. unfold Rdiv. apply Rmult_0_l.
Qed.

Lemma tf_pos (t : string) (d : document) : In t d -> 1 <= INR (tf t d).
Proof.
  intros Hin. unfold tf.
  apply (count_occ_In string_dec) in Hin.
  change 1 with (INR 1). apply le_INR. lia.
Qed.

Lemma tf_in_vocabulary (vocabulary : list string) (t : string)
  (d : document) :
  In t vocabulary -> tf t (in_vocabulary vocabulary d) = tf t d.
Proof.
  intros Hin. unfold tf, in_vocabulary.
  induction d as [|u d IH]; simpl; [reflexivity|].
  destruct (existsb (String.eqb u) vocabulary) eqn:E; simpl.
  - destruct (string_dec u t); rewrite IH; reflexivity.
  - destruct (string_dec u t) as [->|Hne]; [|exact IH].
    exfalso.
    assert (Ht : existsb (String.eqb t) vocabulary = true).
    { apply existsb_exists. exists t. split; [exact Hin|].
      apply String.eqb_refl. }
    congruence.
Qed.

Lemma index_from_nth (l : list string) (n j : nat) (t : string) :
  index_from n l t = Some j ->
  (n <= j)%nat /\ nth_error l (j - n) = Some t.
Proof.
  revert n. induction l as [|u l IH]; simpl; intros n H; [discriminate|].
  destruct (String.eqb t u) eqn:E.
  - apply String.eqb_eq in E. inversion H; subst.
    rewrite Nat.sub_diag. auto.
  - apply IH in H. destruct H as [Hle H]. split; [lia|].
    replace (j - n)%nat with (S (j - S n)) by lia. exact H.
Qed.

Lemma index_from_in (l : list string) (n : nat) (t : string) :
  In t l <-> exists j, index_from n l t = Some j.
Proof.
  revert n. induction l as [|u l IH]; simpl; intros n.
  - split; [contradiction|]. intros [j H]. discriminate.
  - destruct (String.eqb t u) eqn:E.
    + apply String.eqb_eq in E. split; [eauto|auto].
    + apply String.eqb_neq in E. rewrite <- IH. split.
      * intros [H|H]; [congruence|exact H].
      * auto.
Qed.

End TfidfFacts.

Module TfidfClaims.
Import Tfidf TfidfFacts.
Local Open Scope R_scope.

(** C3, counterexample.  Fitted on the single document ["lottery"], the
    term "lottery" of the vocabulary has idf 1, while ln(N / df) is
    ln(1 / 1) = 0. *)
Lemma idf_single_document :
  In "lottery" ["lottery"] /\
  idf [["lottery"]] "lottery" = 1 /\
  ln (INR (n_samples [["lottery"]]) / INR (df [["lottery"]] "lottery")) = 0 /\
  idf [["lottery"]] "lottery"
  <> ln (INR (n_samples [["lottery"]]) / INR (df [["lottery"]] "lottery")).
Proof.
  assert (H1 : idf [["lottery"]] "lottery" = 1).
  { unfold idf, n_samples, df. simpl.
    replace ((1 + 1) / (1 + 1)) with 1 by field.
    rewrite ln_1. lra. }
  assert (H0 : ln (INR (n_samples [["lottery"]])
                   / INR (df [["lottery"]] "lottery")) = 0).
  { unfold n_samples, df. simpl.
    replace (1 / 1) with 1 by field. apply ln_1. }
  split; [left; reflexivity|].
  split; [exact H1|]. split; [exact H0|].
  rewrite H1, H0. lra.
Qed.

(** C3 (as the notebooks have it).  For every term t of the fitted
    vocabulary the idf the encoder uses is ln((1 + N) / (1 + df(t))) + 1,
    natural logarithm, N the corpus size and df(t) the number of
    documents that hold t; it is never below 1.  A term outside the
    vocabulary has no feature index, and the encoded row, one entry per
    vocabulary term, is the row of the document without such terms. *)
Theorem idf_smooth_and_out_of_vocabulary
  (corpus : list document) (vocabulary : list string) :
  (forall t, In t vocabulary ->
     exists j, vocabulary_ vocabulary t = Some j /\
       nth_error (idf_ corpus vocabulary) j
       = Some (ln ((1 + INR (n_samples corpus)) / (1 + INR (df corpus t)))
               + 1) /\
       1 <= ln ((1 + INR (n_samples corpus)) / (1 + INR (df corpus t))) + 1) /\
  (forall t, ~ In t vocabulary -> vocabulary_ vocabulary t = None) /\
  (forall d, List.length (transform corpus vocabulary d)
             = List.length vocabulary) /\
  (forall d, transform corpus vocabulary d
             = transform corpus vocabulary (in_vocabulary vocabulary d)).
Proof.
  split; [|split; [|split]].
  - intros t Hin. unfold vocabulary_.
    destruct (proj1 (index_from_in vocabulary 0 t) Hin) as [j Hj].
    exists j. split; [exact Hj|].
    apply index_from_nth in Hj. destruct Hj as [_ Hj].
    rewrite Nat.sub_0_r in Hj. split.
    + unfold idf_. rewrite nth_error_map, Hj. reflexivity.
    + apply (idf_ge_1 corpus t).
  - intros t Hnot. unfold vocabulary_.
    destruct (index_from 0 vocabulary t) as [j|] eqn:E; [|reflexivity].
    exfalso. apply Hnot. apply (index_from_in vocabulary 0 t). eauto.
  - intros d. unfold transform, normalize.
    destruct (Req_dec_T (l2_norm (weights corpus vocabulary d)) 0);
      unfold weights; rewrite !length_map; reflexivity.
  - intros d. unfold transform. f_equal. unfold weights.
    apply map_ext_in. intros t Hin.
    rewrite tf_in_vocabulary by exact Hin. reflexivity.
Qed.

Lemma idf_smooth_witness :
  exists j, vocabulary_ ["free"; "prize"] "prize" = Some j /\
    nth_error (idf_ [["free"; "prize"]; ["free"]] ["free"; "prize"]) j
    = Some (ln ((1 + INR (n_samples [["free"; "prize"]; ["free"]]))
                / (1 + INR (df [["free"; "prize"]; ["free"]] "prize")))
            + 1) /\
    1 <= ln ((1 + INR (n_samples [["free"; "prize"]; ["free"]]))
             / (1 + INR (df [["free"; "prize"]; ["free"]] "prize"))) + 1.
Proof.
  apply (proj1 (idf_smooth_and_out_of_vocabulary
                  [["free"; "prize"]; ["free"]] ["free"; "prize"])).
  simpl. auto.
Defined.

End TfidfClaims.

(** ** More on the recommender *)

Module RecommenderMoreFacts.
Import Py Recommender RecommenderFacts.

Lemma insert_desc_perm (A : Type) (key : A -> Q) (x : A) (l : list A) :
  Permutation (insert_desc key x l) (x :: l).
Proof.
  induction l as [|y l IH]; simpl; [reflexivity|].
  destruct (key x ?= key y)%Q; try reflexivity.
  rewrite IH. apply perm_swap.
Qed.

Lemma sorted_reverse_perm (A : Type) (key : A -> Q) (l : list A) :
  Permutation (sorted_reverse key l) l.
Proof.
  induction l as [|x l IH]; simpl; [reflexivity|].
  rewrite insert_desc_perm, IH. reflexivity.
Qed.

Lemma enumerate_from_positions (A : Type) (n : nat) (l : list A) :
  map fst (enumerate_from n l) = seq n (List.length l).
Proof.
  revert n. induction l as [|x l IH]; intros n; simpl; [reflexivity|].
  rewrite IH. reflexivity.
Qed.

Lemma length_enumerate_from (A : Type) (n : nat) (l : list A) :
  List.length (enumerate_from n l) = List.length l.
Proof.
  revert n. induction l as [|x l IH]; intros n; simpl; auto.
Qed.

Lemma ranking_positions_nodup (distances : list Q) :
  NoDup (map fst (sorted_reverse (fun p => snd p) (enumerate distances))).
Proof.
  apply Permutation_NoDup with (map fst (enumerate distances)).
  - apply Permutation_map. symmetry. apply sorted_reverse_perm.
  - unfold enumerate. rewrite enumerate_from_positions. apply seq_NoDup.
Qed.

Lemma NoDup_app_parts (A : Type) (l1 l2 : list A) :
  NoDup (l1 ++ l2) -> NoDup l1 /\ NoDup l2.
Proof.
  intros H. split.
  - apply NoDup_app_remove_r with l2. exact H.
  - apply NoDup_app_remove_l with l1. exact H.
Qed.

Lemma NoDup_map_slice (A B : Type) (f : A -> B) (a b : nat) (l : list A) :
  NoDup (map f l) -> NoDup (map f (slice a b l)).
Proof.
  intros H. unfold slice.
  rewrite <- (firstn_skipn a l), map_app in H.
  apply NoDup_app_parts in H. destruct H as [_ H].
  rewrite <- (firstn_skipn (b - a) (skipn a l)), map_app in H.
  apply NoDup_app_parts in H. tauto.
Qed.

(** What the printing loop leaves behind, whether it ends or raises. *)
Lemma print_titles_printed (new : list row) (l : list (nat * Q))
  (out : list string) :
  exists ts,
    printed (print_titles new l out) = out ++ ts /\
    List.length ts <= List.length l /\
    Forall (fun t => exists r, In r new /\ title r = t) ts.
Proof.
  revert out. induction l as [|x l IH]; intros out; simpl.
  - exists []. rewrite app_nil_r. repeat split; auto.
  - destruct (nth_error new (fst x)) as [r|] eqn:E.
    + destruct (IH (out ++ [title r])) as (ts & Hp & Hl & Hf).
      exists (title r :: ts). rewrite Hp, <- app_assoc. simpl.
      repeat split; [lia|].
      constructor; [|exact Hf].
      exists r. split; [|reflexivity]. apply nth_error_In with (fst x).
      exact E.
    + exists []. simpl. rewrite app_nil_r. repeat split; [lia|constructor].
Qed.

Lemma recommend_printed (lower : string -> string) (new : list row)
  (similarity : list (list Q)) (movie : string) :
  exists ts,
    printed (recommend lower new similarity movie) = ts /\
    List.length ts <= 5 /\
    Forall (fun t => exists r, In r new /\ title r = t) ts.
Proof.
  unfold recommend.
  destruct (negb (title_in lower new (lower movie))).
  { exists []. simpl. repeat split; [lia|constructor]. }
  destruct (matching lower new (lower movie)) as [|r rest].
  { exists []. simpl. repeat split; [lia|constructor]. }
  destruct (nth_error similarity (index r)) as [distances|].
  2:{ exists []. simpl. repeat split; [lia|constructor]. }
  destruct (print_titles_printed new (movies_list distances) [])
    as (ts & Hp & Hl & Hf).
  exists ts. simpl in Hp. repeat split; auto.
  pose proof (movies_list_length distances). lia.
Qed.


Lemma print_titles_titles_of (new : list row) (l : list (nat * Q))
  (out : list string) :
  match StreamlitApp.titles_of new l with
  | Some ts => print_titles new l out = mkOutcome (out ++ ts) (Returned PyNone)
  | None => result (print_titles new l out) = Raised "IndexError"
  end.
Proof.
  revert out. induction l as [|x l IH]; intros out; simpl.
  - rewrite app_nil_r. reflexivity.
  - destruct (nth_error new (fst x)) as [r|]; [|reflexivity].
    specialize (IH (out ++ [title r])).
    destruct (StreamlitApp.titles_of new l) as [ts|].
    + rewrite IH, <- app_assoc. reflexivity.
    + exact IH.
Qed.

End RecommenderMoreFacts.

Module RecommenderExtras.
Import Py Recommender RecommenderFacts RecommenderMoreFacts.

(** X1.  Whatever the frame, the matrix and the title, [recommend] prints
    at most five lines, also when it ends by raising. *)
Theorem recommend_prints_at_most_five
  (lower : string -> string) (new : list row) (similarity : list (list Q))
  (movie : string) :
  List.length (printed (recommend lower new similarity movie)) <= 5.
Proof.
  destruct (recommend_printed lower new similarity movie)
    as (ts & -> & Hl & _).
  exact Hl.
Qed.

(** X2.  Every line [recommend] prints is the title of a row of the
    frame; the error text is never printed. *)
Theorem recommend_prints_corpus_titles
  (lower : string -> string) (new : list row) (similarity : list (list Q))
  (movie : string) :
  Forall (fun t => exists r, In r new /\ title r = t)
    (printed (recommend lower new similarity movie)).
Proof.
  destruct (recommend_printed lower new similarity movie)
    as (ts & -> & _ & Hf).
  exact Hf.
Qed.

(** X3.  The ranking a query keeps has exactly min(5, n - 1) entries for a
    similarity row of n entries: five as soon as the corpus has six
    movies, none for a corpus of one. *)
Theorem movies_list_exact_length (distances : list Q) :
  List.length (movies_list distances)
  = Nat.min 5 (List.length distances - 1).
Proof.
  unfold movies_list, slice, enumerate.
  rewrite length_firstn, length_skipn, length_sorted_reverse,
    length_enumerate_from.
  reflexivity.
Qed.

(** X4.  No corpus position occurs twice in the ranking a query keeps: a
    movie is never recommended twice at one call. *)
Theorem movies_list_positions_distinct (distances : list Q) :
  NoDup (map fst (movies_list distances)).
Proof.
  unfold movies_list. apply NoDup_map_slice.
  apply ranking_positions_nodup.
Qed.



(** X6.  Over a square similarity matrix, a query whose title matches
    ends in one of two ways, decided by the index label of the first
    matching row: with a label that is no row position it raises
    [IndexError] before printing, otherwise it returns [None]. *)
Theorem recommend_match_raises_or_returns
  (lower : string -> string) (new : list row) (similarity : list (list Q))
  (movie : string) (r : row) (rest : list row) :
  square new similarity ->
  matching lower new (lower movie) = r :: rest ->
  (List.length new <= index r ->
   recommend lower new similarity movie = mkOutcome [] (Raised "IndexError"))
  /\
  (index r < List.length new ->
   result (recommend lower new similarity movie) = Returned PyNone).
Proof.
  intros [Hrows Hcols] Hm.
  destruct (matching_head lower new _ r rest Hm) as [Hr Ht].
  pose proof (title_in_true lower new (lower movie) r Hr Ht) as Hin.
  unfold recommend. rewrite Hin, Hm. simpl. split.
  - intros Hge.
    assert (E : nth_error similarity (index r) = None)
      by (apply nth_error_None; lia).
    rewrite E. reflexivity.
  - intros Hlt.
    destruct (nth_error similarity (index r)) as [distances|] eqn:Hd;
      [|apply nth_error_None in Hd; lia].
    assert (Hlen : List.length distances = List.length new).
    { rewrite Forall_forall in Hcols. apply Hcols.
      apply nth_error_In with (index r). exact Hd. }
    assert (Hrange : Forall (fun x => fst x < List.length new)
                       (movies_list distances)).
    { rewrite Forall_forall. intros [i s] Hx.
      apply movies_list_entries in Hx. simpl. rewrite <- Hlen.
      apply nth_error_Some. congruence. }
    destruct (print_titles_in_range new _ [] Hrange) as (titles & Hp & _).
    rewrite Hp. reflexivity.
Qed.

Lemma recommend_match_raises_or_returns_witness :
  (List.length corpus_dropped <= 3 ->
   recommend str_lower corpus_dropped similarity_dropped "delta"
   = mkOutcome [] (Raised "IndexError")) /\
  (3 < List.length corpus_dropped ->
   result (recommend str_lower corpus_dropped similarity_dropped "delta")
   = Returned PyNone).
Proof.
  apply (recommend_match_raises_or_returns str_lower corpus_dropped
           similarity_dropped "delta"
           (mkRow 3 14 "Delta" "space war alien") []).
  - split; [reflexivity|]. repeat constructor.
  - reflexivity.
Defined.

(** X7.  For a title that matches, the [recommend] of the deployment
    guide returns exactly the list of titles the notebook's [recommend]
    prints before it returns [None], and it raises [IndexError] exactly
    when the notebook's does. *)
Theorem app_returns_what_notebook_prints
  (lower : string -> string) (new : list row) (similarity : list (list Q))
  (movie : string) :
  title_in lower new (lower movie) = true ->
  (forall ts,
      StreamlitApp.recommend lower new similarity movie
      = StreamlitApp.AppReturned ts <->
      recommend lower new similarity movie = mkOutcome ts (Returned PyNone))
  /\
  (StreamlitApp.recommend lower new similarity movie
   = StreamlitApp.AppRaised "IndexError" <->
   result (recommend lower new similarity movie) = Raised "IndexError").
Proof.
  intros Hin. unfold StreamlitApp.recommend, recommend. rewrite Hin. simpl.
  destruct (matching lower new (lower movie)) as [|r rest].
  { split; [intros ts|]; split; intros H;
      try discriminate H; reflexivity. }
  destruct (nth_error similarity (index r)) as [distances|].
  2:{ split; [intros ts|]; split; intros H;
        try discriminate H; reflexivity. }
  pose proof (print_titles_titles_of new (movies_list distances) []) as Hp.
  destruct (StreamlitApp.titles_of new (movies_list distances)) as [ts0|].
  - simpl in Hp. rewrite Hp. split; [intros ts|]; split; intros H;
      try discriminate H; inversion H; reflexivity.
  - split; [intros ts|]; split; intros H; try discriminate H.
    + rewrite H in Hp. discriminate Hp.
    + exact Hp.
    + reflexivity.
Qed.

Lemma app_returns_what_notebook_prints_witness :
  (forall ts,
      StreamlitApp.recommend str_lower corpus3 similarity3 "ALPHA"
      = StreamlitApp.AppReturned ts <->
      recommend str_lower corpus3 similarity3 "ALPHA"
      = mkOutcome ts (Returned PyNone))
  /\
  (StreamlitApp.recommend str_lower corpus3 similarity3 "ALPHA"
   = StreamlitApp.AppRaised "IndexError" <->
   result (recommend str_lower corpus3 similarity3 "ALPHA")
   = Raised "IndexError").
Proof.
  apply app_returns_what_notebook_prints. reflexivity.
Defined.

End RecommenderExtras.

(** ** From the merged frame to [new] *)

Module MoviePipelineFacts.
Import Py Recommender MoviePipeline RecommenderFacts.

Lemma dropna_label_bounds (n : nat) (rows : list merged) (p : nat)
  (x : nat * FeatureAssembler.movie) :
  nth_error (dropna (enumerate_from n rows)) p = Some x ->
  n + p <= fst x < n + List.length rows.
Proof.
  revert n p. induction rows as [|r rows IH]; intros n p H; simpl in H.
  - destruct p; discriminate H.
  - destruct (complete r) as [m|].
    + destruct p as [|p]; simpl in H.
      * inversion H; subst. simpl. lia.
      * apply IH in H. simpl. lia.
    + apply IH in H. simpl. lia.
Qed.

Lemma dropna_labels_sorted (n : nat) (rows : list merged) :
  StronglySorted lt (map fst (dropna (enumerate_from n rows))).
Proof.
  revert n. induction rows as [|r rows IH]; intros n; simpl.
  - constructor.
  - destruct (complete r) as [m|]; [|apply IH].
    simpl. constructor; [apply IH|].
    rewrite Forall_forall. intros i Hi.
    apply in_map_iff in Hi. destruct Hi as (x & <- & Hx).
    apply In_nth_error in Hx. destruct Hx as [p Hp].
    apply dropna_label_bounds in Hp. lia.
Qed.

Lemma dropna_length (n : nat) (rows : list merged) :
  List.length (dropna (enumerate_from n rows)) <= List.length rows.
Proof.
  revert n. induction rows as [|r rows IH]; intros n; simpl; [lia|].
  destruct (complete r); simpl; specialize (IH (S n)); lia.
Qed.

(** The labels are the positions exactly when the kept rows are a prefix
    of the frame. *)
Lemma dropna_fresh_iff (n : nat) (rows : list merged) :
  map fst (dropna (enumerate_from n rows))
  = seq n (List.length (dropna (enumerate_from n rows))) <->
  Forall (fun r => complete r <> None)
    (firstn (List.length (dropna (enumerate_from n rows))) rows).
Proof.
  revert n. induction rows as [|r rows IH]; intros n; simpl.
  - split; [constructor|reflexivity].
  - destruct (complete r) as [m|] eqn:E; simpl.
    + split.
      * intros H. inversion H as [H']. constructor; [congruence|].
        apply IH. exact H'.
      * intros H. inversion H as [|? ? _ H']; subst. f_equal.
        apply IH. exact H'.
    + destruct (dropna (enumerate_from (S n) rows)) as [|x l] eqn:El; simpl.
      * split; [constructor|reflexivity].
      * split.
        -- intros H. injection H as Hx _. exfalso.
           assert (Hb : nth_error (dropna (enumerate_from (S n) rows)) 0
                        = Some x) by (rewrite El; reflexivity).
           apply dropna_label_bounds in Hb. lia.
        -- intros H. inversion H as [|? ? Hr _]; subst. congruence.
Qed.

Lemma sorted_gap (L : list nat) (i j a b : nat) :
  StronglySorted lt L ->
  nth_error L i = Some a -> nth_error L j = Some b -> i <= j ->
  a + (j - i) <= b.
Proof.
  intros Hs. revert i j a b. induction Hs as [|x L Hs IH Hf];
    intros i j a b Hi Hj Hle.
  - destruct i; discriminate Hi.
  - destruct i as [|i], j as [|j]; simpl in Hi, Hj.
    + inversion Hi; inversion Hj; subst. lia.
    + inversion Hi; subst.
      destruct L as [|y L]; [destruct j; discriminate Hj|].
      assert (H0 : nth_error (y :: L) 0 = Some y) by reflexivity.
      pose proof (IH 0 j y b H0 Hj (Nat.le_0_l _)) as Hg.
      rewrite Forall_forall in Hf.
      specialize (Hf y (or_introl eq_refl)). lia.
    + lia.
    + specialize (IH i j a b Hi Hj). simpl. lia.
Qed.

(** Strictly increasing labels that start no lower than the positions and
    end on the last position are the positions. *)
Lemma labels_fresh_from_last (L : list nat) (a : nat) :
  StronglySorted lt L ->
  (forall p x, nth_error L p = Some x -> p <= x) ->
  nth_error L (List.length L - 1) = Some a -> a < List.length L ->
  L = seq 0 (List.length L).
Proof.
  intros Hs Hge Hlast Hlt.
  apply nth_error_ext. intros p.
  rewrite nth_error_seq.
  destruct (p <? List.length L) eqn:E.
  - apply Nat.ltb_lt in E.
    destruct (nth_error L p) as [x|] eqn:Hp;
      [|apply nth_error_None in Hp; lia].
    pose proof (Hge p x Hp) as H1.
    assert (Hle : p <= List.length L - 1) by lia.
    pose proof (sorted_gap L p _ x a Hs Hp Hlast Hle) as H2.
    simpl. f_equal. lia.
  - apply Nat.ltb_ge in E. apply nth_error_None. exact E.
Qed.

Lemma build_new_labels (lower : string -> string) (rows : list merged) :
  map index (build_new lower rows) = map fst (dropna (frame rows)).
Proof.
  unfold build_new. rewrite map_map. reflexivity.
Qed.

Lemma build_new_length (lower : string -> string) (rows : list merged) :
  List.length (build_new lower rows) = List.length (dropna (frame rows)).
Proof. unfold build_new. apply length_map. Qed.

Lemma build_new_label_bounds (lower : string -> string) (rows : list merged)
  (p : nat) (r : row) :
  nth_error (build_new lower rows) p = Some r ->
  p <= index r < List.length rows.
Proof.
  unfold build_new, frame, enumerate. intros H.
  rewrite nth_error_map in H.
  destruct (nth_error (dropna (enumerate_from 0 rows)) p) as [x|] eqn:E;
    [|discriminate H].
  inversion H; subst. simpl.
  apply dropna_label_bounds in E. lia.
Qed.

Lemma last_label_large (lower : string -> string) (rows : list merged)
  (pre : list row) (r : row) :
  build_new lower rows = pre ++ [r] ->
  ~ fresh_index (build_new lower rows) ->
  List.length (build_new lower rows) <= index r.
Proof.
  intros Hnew Hnot.
  destruct (le_lt_dec (List.length (build_new lower rows)) (index r))
    as [H|H]; [exact H|].
  exfalso. apply Hnot. unfold fresh_index.
  assert (Hlast : nth_error (build_new lower rows)
                    (List.length (build_new lower rows) - 1) = Some r).
  { rewrite Hnew, length_app. simpl.
    rewrite nth_error_app2 by lia.
    replace (List.length pre + 1 - 1 - List.length pre) with 0 by lia.
    reflexivity. }
  rewrite <- (length_map index (build_new lower rows)).
  apply labels_fresh_from_last with (index r).
  - rewrite build_new_labels. apply dropna_labels_sorted.
  - intros p x Hp. rewrite nth_error_map in Hp.
    destruct (nth_error (build_new lower rows) p) as [r0|] eqn:E;
      [|discriminate Hp].
    inversion Hp; subst.
    apply (build_new_label_bounds lower rows p r0 E).
  - rewrite length_map, nth_error_map, Hlast. reflexivity.
  - rewrite length_map. exact H.
Qed.

Lemma matching_last (lower : string -> string) (pre : list row) (r : row) :
  (forall r', In r' pre -> lower (title r') <> lower (title r)) ->
  matching lower (pre ++ [r]) (lower (title r)) = [r].
Proof.
  intros Hpre. unfold matching. rewrite filter_app. simpl.
  rewrite String.eqb_refl.
  induction pre as [|r0 pre IH]; [reflexivity|].
  simpl. destruct (String.eqb (lower (title r0)) (lower (title r))) eqn:E.
  - apply String.eqb_eq in E. exfalso.
    apply (Hpre r0 (or_introl eq_refl) E).
  - apply IH. intros r' Hr'. apply Hpre. right. exact Hr'.
Qed.

Lemma recommend_label_large (lower : string -> string) (new : list row)
  (similarity : list (list Q)) (pre : list row) (r : row) :
  new = pre ++ [r] ->
  List.length similarity = List.length new ->
  List.length new <= index r ->
  (forall r', In r' pre -> lower (title r') <> lower (title r)) ->
  recommend lower new similarity (title r)
  = mkOutcome [] (Raised "IndexError").
Proof.
  intros Hnew Hrows Hge Hpre.
  assert (Hin : title_in lower new (lower (title r)) = true).
  { apply title_in_true with r; [|reflexivity].
    rewrite Hnew. apply in_or_app. right. left. reflexivity. }
  unfold recommend. rewrite Hin. simpl.
  rewrite Hnew at 1. rewrite (matching_last lower pre r Hpre).
  assert (E : nth_error similarity (index r) = None)
    by (apply nth_error_None; lia).
  rewrite E. reflexivity.
Qed.

End MoviePipelineFacts.

Module MoviePipelineExtras.
Import Py Recommender MoviePipeline RecommenderFacts MoviePipelineFacts.

(** X8.  In the frame [new] the index labels increase strictly, the
    label of a row is never below its position and always below the
    number of rows of the merged frame, and [new] has no more rows than
    the merged frame. *)
Theorem build_new_labels_increase
  (lower : string -> string) (rows : list merged) :
  StronglySorted lt (map index (build_new lower rows)) /\
  (forall p r, nth_error (build_new lower rows) p = Some r ->
               p <= index r < List.length rows) /\
  List.length (build_new lower rows) <= List.length rows.
Proof.
  split; [|split].
  - rewrite build_new_labels. apply dropna_labels_sorted.
  - apply build_new_label_bounds.
  - rewrite build_new_length. apply dropna_length.
Qed.

(** X9.  The index labels of [new] are the row positions exactly when
    the rows [dropna] kept are a prefix of the merged frame, that is when
    no row with a missing cell stands before a complete row. *)
Theorem build_new_fresh_iff (lower : string -> string) (rows : list merged) :
  fresh_index (build_new lower rows) <->
  Forall (fun r => complete r <> None)
    (firstn (List.length (build_new lower rows)) rows).
Proof.
  unfold fresh_index.
  rewrite build_new_labels, build_new_length.
  apply dropna_fresh_iff.
Qed.

(** X10.  When [dropna] removed a row that stood before a complete row,
    the query for the title of the last row of [new] raises [IndexError]
    and prints nothing, provided no earlier row has the same title in
    lower case: the label of the last row is no position of the square
    similarity matrix. *)
Theorem last_query_raises_after_drop
  (lower : string -> string) (rows : list merged)
  (similarity : list (list Q)) (pre : list row) (r : row) :
  build_new lower rows = pre ++ [r] ->
  square (build_new lower rows) similarity ->
  ~ fresh_index (build_new lower rows) ->
  (forall r', In r' pre -> lower (title r') <> lower (title r)) ->
  recommend lower (build_new lower rows) similarity (title r)
  = mkOutcome [] (Raised "IndexError").
Proof.
  intros Hnew [Hrows _] Hnot Hpre.
  apply (recommend_label_large lower _ similarity pre r Hnew Hrows); auto.
  apply (last_label_large lower rows pre r Hnew Hnot).
Qed.

Lemma last_query_raises_witness :
  recommend str_lower (build_new str_lower sample_rows) sample_similarity
    "Gamma"
  = mkOutcome [] (Raised "IndexError").
Proof.
  apply (last_query_raises_after_drop str_lower sample_rows
           sample_similarity
           [mkRow 0 11 "Alpha" "action hero action"]
           (mkRow 2 13 "Gamma" "romance drama romance")).
  - reflexivity.
  - split; [reflexivity|]. repeat constructor.
  - intros H. discriminate H.
  - intros r' [<-|[]]. vm_compute. intros E. discriminate E.
Defined.

End MoviePipelineExtras.

(** ** Words, spaces and the tag string *)

Module TextFacts.
Import FeatureAssembler Text.

Lemma append_snoc (a b : string) (c : ascii) :
  ((a ++ String c EmptyString) ++ b)%string = (a ++ String c b)%string.
Proof.
  induction a as [|x a IH]; simpl; [reflexivity|]. rewrite IH. reflexivity.
Qed.

Lemma append_empty_r (a : string) : (a ++ EmptyString)%string = a.
Proof.
  induction a as [|x a IH]; simpl; [reflexivity|]. rewrite IH. reflexivity.
Qed.

Lemma has_space_snoc (a : string) (c : ascii) :
  has_space (a ++ String c EmptyString)%string = has_space a || is_space c.
Proof.
  induction a as [|x a IH]; simpl.
  - rewrite orb_false_r. reflexivity.
  - rewrite IH, orb_assoc. reflexivity.
Qed.

Lemma snoc_not_empty (a : string) (c : ascii) :
  (a ++ String c EmptyString)%string <> EmptyString.
Proof. destruct a; simpl; discriminate. Qed.

Lemma split_from_words (s word0 : string) :
  has_space word0 = false -> Forall word (split_from s word0).
Proof.
  revert word0. induction s as [|c s IH]; intros word0 Hw; simpl.
  - destruct word0; constructor; [|constructor].
    split; [discriminate|exact Hw].
  - destruct (is_space c) eqn:E.
    + destruct word0.
      * apply IH. reflexivity.
      * constructor; [split; [discriminate|exact Hw]|].
        apply IH. reflexivity.
    + apply IH. rewrite has_space_snoc, Hw, E. reflexivity.
Qed.

Lemma split_from_nil (s word0 : string) :
  split_from s word0 = [] <-> word0 = EmptyString /\ all_space s = true.
Proof.
  revert word0. induction s as [|c s IH]; intros word0; simpl.
  - destruct word0; split; intros H; try discriminate H; auto.
    destruct H as [H _]. discriminate H.
  - destruct (is_space c) eqn:E; simpl.
    + destruct word0.
      * apply IH.
      * split; intros H; [discriminate H|].
        destruct H as [H _]. discriminate H.
    + rewrite IH. split; intros [H1 H2].
      * exfalso. apply (snoc_not_empty word0 c H1).
      * discriminate H2.
Qed.

(** Reading a space-free run [w] only extends the word being read. *)
Lemma split_from_run (w s word0 : string) :
  has_space w = false ->
  split_from (w ++ s)%string word0 = split_from s (word0 ++ w)%string.
Proof.
  revert word0. induction w as [|c w IH]; intros word0 Hw; simpl.
  - rewrite append_empty_r. reflexivity.
  - simpl in Hw. apply orb_false_iff in Hw. destruct Hw as [Hc Hw].
    rewrite Hc, (IH _ Hw), append_snoc. reflexivity.
Qed.

Lemma split_join (ws : list string) :
  Forall word ws -> split (join ws) = ws.
Proof.
  unfold split. induction 1 as [|w ws [Hne Hsp] Hws IH]; [reflexivity|].
  destruct ws as [|w2 ws].
  - simpl. rewrite <- (append_empty_r w) at 1.
    rewrite split_from_run by exact Hsp. simpl.
    destruct w; [contradiction|reflexivity].
  - change (join (w :: w2 :: ws))
      with (w ++ String " " (join (w2 :: ws)))%string.
    rewrite split_from_run by exact Hsp.
    cbn [append split_from is_space].
    replace (is_space " ") with true by reflexivity.
    destruct w; [contradiction|].
    f_equal. exact IH.
Qed.

Lemma remove_spaces_no_blank (s : string) :
  has_blank (remove_spaces s) = false.
Proof.
  induction s as [|c s IH]; simpl; [reflexivity|].
  destruct (Ascii.eqb c " ") eqn:E; [exact IH|].
  simpl. rewrite E, IH. reflexivity.
Qed.

Lemma remove_spaces_fixed (s : string) :
  has_blank s = false -> remove_spaces s = s.
Proof.
  induction s as [|c s IH]; simpl; [reflexivity|].
  intros H. apply orb_false_iff in H. destruct H as [Hc Hs].
  rewrite Hc, (IH Hs). reflexivity.
Qed.

End TextFacts.

Module TextExtras.
Import FeatureAssembler Text TextFacts FeatureAssemblerFacts.

(** X11.  The genres and keywords columns hold one token per entry of
    the parsed cell, in source order: the entry's name with its spaces
    removed. *)
Theorem names_columns_keep_every_entry (m : movie) :
  genres_column m = map (fun e => remove_spaces (name e)) (genres m) /\
  keywords_column m = map (fun e => remove_spaces (name e)) (keywords m) /\
  List.length (genres_column m) = List.length (genres m) /\
  List.length (keywords_column m) = List.length (keywords m).
Proof.
  unfold genres_column, keywords_column, extract_names.
  rewrite !extract_names_loop_spec. simpl.
  rewrite !map_map, !length_map. repeat split; reflexivity.
Qed.

(** X12.  Every word [split] returns is non-empty and free of white
    space, and [split] returns no word at all exactly for a string made
    of white space only (the empty string included). *)
Theorem split_gives_words (s : string) :
  Forall word (split s) /\ (split s = [] <-> all_space s = true).
Proof.
  split.
  - apply split_from_words. reflexivity.
  - unfold split. rewrite split_from_nil. tauto.
Qed.

(** X13.  After the replacement of " " by "" a name holds no space
    character, and a name without a space is left as it is. *)
Theorem remove_spaces_removes_all (s : string) :
  has_blank (remove_spaces s) = false /\
  (has_blank s = false -> remove_spaces s = s).
Proof.
  split; [apply remove_spaces_no_blank|apply remove_spaces_fixed].
Qed.

(** X14.  When the names that enter the tag bag are words (not empty
    once the spaces are removed, and free of other white space), joining
    the tag bag with single spaces loses nothing: splitting the joined
    string gives the tag bag back, token for token. *)
Theorem tag_string_round_trip (m : movie) :
  Forall word (genres_column m ++ keywords_column m
                 ++ cast_column m ++ crew_column m) ->
  split (join (tag_bag m)) = tag_bag m.
Proof.
  intros H. apply split_join. unfold tag_bag.
  apply Forall_app. split; [|exact H].
  apply split_from_words. reflexivity.
Qed.

(** The no-break space, code point 160, separates words like any other
    white space. *)
Example split_no_break_space :
  split ("New" ++ String (ascii_of_nat 160) "York city")%string
  = ["New"; "York"; "city"] /\
  split (String (ascii_of_nat 160) EmptyString) = [] /\
  has_space ("Tom" ++ String (ascii_of_nat 160) "Hanks")%string = true.
Proof. repeat split; reflexivity. Qed.

Lemma tag_string_round_trip_witness :
  split (join (tag_bag avatar)) = tag_bag avatar.
Proof.
  apply tag_string_round_trip.
  vm_compute. repeat constructor; intros E; discriminate E.
Defined.

End TextExtras.

(** ** Cleaning, report and training in the spam notebook *)

Module SpamMoreFacts.
Import SpamClassifier SpamClassifierFacts SpamReport.

Lemma dropna_in (df : list mail) (r : mail) :
  In r (dropna df) <->
  In r df /\ exists c m, Category r = Some c /\ Message r = Some m.
Proof.
  unfold dropna. rewrite filter_In. split; intros [Hin H]; split; auto.
  - destruct (Category r) as [c|], (Message r) as [m|]; try discriminate H.
    exists c, m. auto.
  - destruct H as (c & m & -> & ->). reflexivity.
Qed.

Lemma existsb_mail_in (r : mail) (seen : list mail) :
  existsb (mail_eqb r) seen = true <-> In r seen.
Proof.
  rewrite existsb_exists. split.
  - intros (x & Hx & E). apply mail_eqb_eq in E. congruence.
  - intros H. exists r. split; [exact H|]. apply mail_eqb_eq. reflexivity.
Qed.

Lemma drop_duplicates_from_in (seen df : list mail) (r : mail) :
  In r (drop_duplicates_from seen df) -> In r df /\ ~ In r seen.
Proof.
  revert seen. induction df as [|x rest IH]; intros seen H; simpl in H.
  - contradiction.
  - destruct (existsb (mail_eqb x) seen) eqn:E.
    + apply IH in H. simpl. tauto.
    + destruct H as [->|H].
      * split; [left; reflexivity|].
        intros Hin. apply existsb_mail_in in Hin. congruence.
      * apply IH in H. simpl in *. tauto.
Qed.

Lemma drop_duplicates_from_nodup (seen df : list mail) :
  NoDup (drop_duplicates_from seen df).
Proof.
  revert seen. induction df as [|x rest IH]; intros seen; simpl.
  - constructor.
  - destruct (existsb (mail_eqb x) seen); [apply IH|].
    constructor; [|apply IH].
    intros H. apply drop_duplicates_from_in in H. simpl in H. tauto.
Qed.

Lemma drop_duplicates_from_fixed (seen df : list mail) :
  NoDup df -> (forall r, In r df -> ~ In r seen) ->
  drop_duplicates_from seen df = df.
Proof.
  revert seen. induction df as [|x rest IH]; intros seen Hnd Hs; simpl.
  - reflexivity.
  - inversion Hnd as [|? ? Hx Hrest]; subst.
    destruct (existsb (mail_eqb x) seen) eqn:E.
    + apply existsb_mail_in in E. exfalso.
      apply (Hs x (or_introl eq_refl) E).
    + f_equal. apply IH; [exact Hrest|].
      intros r Hr [<-|Hin]; [contradiction|].
      apply (Hs r (or_intror Hr) Hin).
Qed.

Lemma filter_fixed (A : Type) (f : A -> bool) (l : list A) :
  (forall x, In x l -> f x = true) -> filter f l = l.
Proof.
  induction l as [|x l IH]; intros H; simpl; [reflexivity|].
  rewrite (H x (or_introl eq_refl)). f_equal.
  apply IH. intros y Hy. apply H. right. exact Hy.
Qed.

Lemma cleaned_in (df : list mail) (r : mail) :
  In r (cleaned df) <->
  In r df /\ exists c m, Category r = Some c /\ Message r = Some m.
Proof.
  unfold cleaned, drop_duplicates. split.
  - intros H. apply drop_duplicates_from_in in H. destruct H as [H _].
    apply dropna_in. exact H.
  - intros (Hin & c & m & Hc & Hm).
    apply (cleaned_keeps df r c m Hin Hc Hm).
Qed.

End SpamMoreFacts.

Module SpamReportFacts.
Import SpamClassifier SpamClassifierFacts SpamReport SpamMoreFacts.

Lemma marked_cons (seen rest : list mail) (x : mail) :
  marked seen (x :: rest)
  = (if existsb (mail_eqb x) seen then 1 else 0) + marked (x :: seen) rest.
Proof.
  unfold marked. simpl.
  destruct (existsb (mail_eqb x) seen); simpl; reflexivity.
Qed.

Lemma existsb_mail_ext (x : mail) (seen seen2 : list mail) :
  (forall r, In r seen <-> In r seen2) ->
  existsb (mail_eqb x) seen = existsb (mail_eqb x) seen2.
Proof.
  intros H.
  destruct (existsb (mail_eqb x) seen) eqn:E1,
           (existsb (mail_eqb x) seen2) eqn:E2; try reflexivity.
  - apply existsb_mail_in in E1. apply H in E1.
    apply existsb_mail_in in E1. congruence.
  - apply existsb_mail_in in E2. apply H in E2.
    apply existsb_mail_in in E2. congruence.
Qed.

(** The rows [drop_duplicates] keeps and the rows [duplicated] marks
    make up the frame. *)
Lemma kept_plus_marked (seen seen2 df : list mail) :
  (forall r, In r seen <-> In r seen2) ->
  List.length (drop_duplicates_from seen df) + marked seen2 df
  = List.length df.
Proof.
  revert seen seen2. induction df as [|x rest IH]; intros seen seen2 H.
  - reflexivity.
  - rewrite marked_cons. cbn [drop_duplicates_from List.length].
    rewrite <- (existsb_mail_ext x seen seen2 H).
    destruct (existsb (mail_eqb x) seen) eqn:E.
    + assert (Hi : List.length (drop_duplicates_from seen rest)
                   + marked (x :: seen2) rest = List.length rest).
      { apply IH. intros r. simpl. rewrite <- H. split; [auto|].
        intros [<-|Hr]; [apply existsb_mail_in; exact E|exact Hr]. }
      lia.
    + assert (Hi : List.length (drop_duplicates_from (x :: seen) rest)
                   + marked (x :: seen2) rest = List.length rest).
      { apply IH. intros r. simpl. rewrite H. tauto. }
      cbn [List.length]. lia.
Qed.

(** Filtering rows away never adds marks. *)
Lemma marked_filter_le (f : mail -> bool) (seen' seen df : list mail) :
  (forall r, In r seen' -> In r seen) ->
  marked seen' (filter f df) <= marked seen df.
Proof.
  revert seen' seen. induction df as [|x rest IH]; intros seen' seen H.
  - unfold marked. simpl. lia.
  - rewrite marked_cons. cbn [filter]. destruct (f x).
    + rewrite marked_cons.
      assert (Hx : (if existsb (mail_eqb x) seen' then 1 else 0)
                   <= (if existsb (mail_eqb x) seen then 1 else 0)).
      { destruct (existsb (mail_eqb x) seen') eqn:E1; [|lia].
        apply existsb_mail_in in E1. apply H in E1.
        apply existsb_mail_in in E1. rewrite E1. lia. }
      assert (Hr : marked (x :: seen') (filter f rest)
                   <= marked (x :: seen) rest).
      { apply IH. intros r [<-|Hr]; [left; reflexivity|right; auto]. }
      lia.
    + assert (Hr : marked seen' (filter f rest) <= marked (x :: seen) rest).
      { apply IH. intros r Hr. right. auto. }
      lia.
Qed.

Lemma missing_values_sum_cons (r : mail) (df : list mail) :
  missing_values_sum (r :: df) = missing_cells r + missing_values_sum df.
Proof. reflexivity. Qed.

Lemma dropna_cons (r : mail) (df : list mail) :
  dropna (r :: df)
  = if (missing_cells r =? 0) then r :: dropna df else dropna df.
Proof.
  unfold dropna, missing_cells. simpl.
  destruct (Category r), (Message r); reflexivity.
Qed.

Lemma missing_cells_bound (r : mail) : missing_cells r <= 2.
Proof. unfold missing_cells. destruct (Category r), (Message r); simpl; lia. Qed.

Lemma dropna_counts (df : list mail) :
  exists dropped,
    List.length df = List.length (dropna df) + dropped /\
    dropped <= missing_values_sum df <= 2 * dropped.
Proof.
  induction df as [|r df (d & Hl & Hd)].
  - exists 0. split; [reflexivity|]. unfold missing_values_sum. simpl. lia.
  - rewrite missing_values_sum_cons, dropna_cons.
    pose proof (missing_cells_bound r) as Hb.
    destruct (missing_cells r =? 0) eqn:E.
    + apply Nat.eqb_eq in E. exists d. cbn [List.length]. lia.
    + apply Nat.eqb_neq in E. exists (S d). cbn [List.length]. lia.
Qed.

Lemma no_missing_dropna (df : list mail) :
  missing_values_sum df = 0 -> dropna df = df.
Proof.
  induction df as [|r df IH]; [reflexivity|].
  rewrite missing_values_sum_cons, dropna_cons. intros H.
  assert (E : missing_cells r = 0) by lia.
  rewrite E. simpl. f_equal. apply IH. lia.
Qed.

Lemma map_label_known (c : option string) :
  map_label c <> None <-> c = Some "spam" \/ c = Some "ham".
Proof.
  destruct c as [s|]; simpl.
  - destruct (String.eqb s "spam") eqn:E1.
    + apply String.eqb_eq in E1. subst. split; [auto|discriminate].
    + destruct (String.eqb s "ham") eqn:E2.
      * apply String.eqb_eq in E2. subst. split; [auto|discriminate].
      * apply String.eqb_neq in E1. apply String.eqb_neq in E2.
        split; [congruence|]. intros [H|H]; congruence.
  - split; [congruence|]. intros [H|H]; discriminate H.
Qed.

Lemma has_nan_label_column (train : list mail) :
  has_nan (label_column train) = false <->
  Forall (fun r => Category r = Some "spam" \/ Category r = Some "ham") train.
Proof.
  unfold has_nan, label_column.
  induction train as [|r train IH]; simpl.
  - split; [constructor|reflexivity].
  - rewrite orb_false_iff, IH. split.
    + intros [H1 H2]. constructor; [|exact H2].
      apply map_label_known. destruct (map_label (Category r)); congruence.
    + intros H. inversion H as [|? ? Hr Ht]; subst. split; [|exact Ht].
      apply map_label_known in Hr.
      destruct (map_label (Category r)); congruence.
Qed.

Lemma nodup_constant (v : Z) (l : list Z) :
  (forall x, In x l -> x = v) -> List.length (nodup Z.eq_dec l) <= 1.
Proof.
  induction l as [|x l IH]; intros H; simpl; [lia|].
  destruct (in_dec Z.eq_dec x l) as [Hin|Hnot].
  - apply IH. intros y Hy. apply H. right. exact Hy.
  - destruct l as [|y l]; [simpl; lia|].
    exfalso. apply Hnot. left.
    rewrite (H x (or_introl eq_refl)).
    apply H. right. left. reflexivity.
Qed.

Lemma values_constant (c : option string) (train : list mail) :
  (forall r, In r train -> Category r = c) ->
  exists v, forall x, In x (values (label_column train)) -> x = v.
Proof.
  intros H. destruct (map_label c) as [v|] eqn:E.
  - exists v. induction train as [|r train IH]; simpl; [contradiction|].
    rewrite (H r (or_introl eq_refl)), E. intros x [<-|Hx]; [reflexivity|].
    apply IH; [|exact Hx]. intros r' Hr'. apply H. right. exact Hr'.
  - exists 0%Z. induction train as [|r train IH]; simpl; [contradiction|].
    rewrite (H r (or_introl eq_refl)), E.
    apply IH. intros r' Hr'. apply H. right. exact Hr'.
Qed.

End SpamReportFacts.

Module SpamExtras.
Import SpamClassifier SpamClassifierFacts SpamReport SpamMoreFacts
  SpamReportFacts.

(** X15.  The cleaned frame holds no row twice, and its rows are exactly
    the rows of the loaded frame in which neither cell is missing. *)
Theorem cleaned_complete_and_distinct (df : list mail) :
  NoDup (cleaned df) /\
  (forall r, In r (cleaned df) <->
             In r df /\ exists c m, Category r = Some c /\ Message r = Some m).
Proof.
  split.
  - unfold cleaned, drop_duplicates. apply drop_duplicates_from_nodup.
  - apply cleaned_in.
Qed.

(** X16.  Cleaning a cleaned frame changes nothing: a second run of
    [dropna] and [drop_duplicates] removes no row. *)
Theorem cleaned_idempotent (df : list mail) :
  cleaned (cleaned df) = cleaned df.
Proof.
  assert (Hd : dropna (cleaned df) = cleaned df).
  { unfold dropna at 1. apply filter_fixed. intros r Hr.
    apply cleaned_in in Hr. destruct Hr as (_ & c & m & -> & ->).
    reflexivity. }
  unfold cleaned at 1. rewrite Hd. unfold drop_duplicates.
  apply drop_duplicates_from_fixed.
  - unfold cleaned, drop_duplicates. apply drop_duplicates_from_nodup.
  - intros r _ H. exact H.
Qed.

(** X17.  The number printed as "Missing values" counts cells, not rows:
    the number of rows [dropna] removes lies between half of it and all
    of it, so the two agree only when no removed row lacks both cells. *)
Theorem missing_values_bound_dropped_rows (df : list mail) :
  List.length df - List.length (dropna df) <= missing_values_sum df /\
  missing_values_sum df <= 2 * (List.length df - List.length (dropna df)).
Proof.
  destruct (dropna_counts df) as (d & Hl & Hd). lia.
Qed.

(** X18.  The number printed as "Duplicate rows removed" is taken before
    [dropna] runs: the rows [drop_duplicates] really removes are never
    more than it, and exactly as many when the loaded frame has no
    missing cell. *)
Theorem duplicates_bound_removed_rows (df : list mail) :
  List.length (dropna df) - List.length (cleaned df) <= duplicates df /\
  (missing_values_sum df = 0 ->
   List.length (cleaned df) + duplicates df = List.length df).
Proof.
  split.
  - assert (H1 : List.length (cleaned df) + marked [] (dropna df)
                 = List.length (dropna df)).
    { unfold cleaned, drop_duplicates. apply kept_plus_marked. tauto. }
    assert (H2 : marked [] (dropna df) <= marked [] df).
    { unfold dropna. apply marked_filter_le. auto. }
    unfold duplicates. lia.
  - intros H. unfold cleaned. rewrite (no_missing_dropna df H).
    unfold drop_duplicates, duplicates. apply kept_plus_marked. tauto.
Qed.

Lemma duplicates_bound_witness :
  List.length (cleaned [mkMail (Some "ham") (Some "hi");
                        mkMail (Some "ham") (Some "hi")])
  + duplicates [mkMail (Some "ham") (Some "hi");
                mkMail (Some "ham") (Some "hi")]
  = List.length [mkMail (Some "ham") (Some "hi");
                 mkMail (Some "ham") (Some "hi")].
Proof.
  apply (proj2 (duplicates_bound_removed_rows
                  [mkMail (Some "ham") (Some "hi");
                   mkMail (Some "ham") (Some "hi")])).
  reflexivity.
Defined.

(** X19.  The label column passed to [train_test_split] is free of
    missing labels exactly when every row of the cleaned frame has the
    Category 'spam' or 'ham', spelled so. *)
Theorem labels_complete_iff_known_categories (df : list mail) :
  has_nan (split_labels df) = false <->
  Forall (fun r => Category r = Some "spam" \/ Category r = Some "ham")
    (cleaned df).
Proof. unfold split_labels. apply has_nan_label_column. Qed.

(** X20.  Training on the labels of rows among which one has a Category
    other than 'spam' and 'ham' raises [ValueError], whatever the feature
    rows: the missing label that the conversion made is rejected. *)
Theorem unknown_category_fails_training
  (vector model : Type) (solver : list vector -> list Z -> model)
  (X : list vector) (train : list mail) (r : mail) :
  In r train ->
  Category r <> Some "spam" -> Category r <> Some "ham" ->
  fit solver X (label_column train) = FitRaised model "ValueError".
Proof.
  intros Hin Hs Hh. unfold fit.
  destruct (List.length X =? 0); [reflexivity|].
  destruct (has_nan (label_column train)) eqn:E; [reflexivity|].
  exfalso. apply has_nan_label_column in E.
  rewrite Forall_forall in E. destruct (E r Hin); contradiction.
Qed.

Lemma unknown_category_witness :
  fit (fun _ _ => tt) [tt; tt]
    (label_column [mkMail (Some "ham") (Some "hi");
                   mkMail (Some "Spam") (Some "win")])
  = FitRaised unit "ValueError".
Proof.
  apply (unknown_category_fails_training unit unit (fun _ _ => tt) [tt; tt]
           [mkMail (Some "ham") (Some "hi");
            mkMail (Some "Spam") (Some "win")]
           (mkMail (Some "Spam") (Some "win"))).
  - right. left. reflexivity.
  - intros E. discriminate E.
  - intros E. discriminate E.
Defined.

(** X21.  Training on the labels of rows that all have the same Category
    raises [ValueError], whatever the feature rows: the labels hold fewer
    than two classes. *)
Theorem single_category_fails_training
  (vector model : Type) (solver : list vector -> list Z -> model)
  (X : list vector) (train : list mail) (c : option string) :
  (forall r, In r train -> Category r = c) ->
  fit solver X (label_column train) = FitRaised model "ValueError".
Proof.
  intros H. unfold fit.
  destruct (List.length X =? 0); [reflexivity|].
  destruct (has_nan (label_column train)); [reflexivity|].
  destruct (negb (List.length X =? List.length (label_column train)));
    [reflexivity|].
  destruct (values_constant c train H) as [v Hv].
  pose proof (nodup_constant v _ Hv) as Hn.
  unfold classes.
  destruct (List.length (nodup Z.eq_dec (values (label_column train))) <? 2)
    eqn:E; [reflexivity|].
  apply Nat.ltb_ge in E. lia.
Qed.

Lemma single_category_witness :
  fit (fun _ _ => tt) [tt; tt]
    (label_column [mkMail (Some "ham") (Some "hi");
                   mkMail (Some "ham") (Some "there")])
  = FitRaised unit "ValueError".
Proof.
  apply (single_category_fails_training unit unit (fun _ _ => tt) [tt; tt]
           [mkMail (Some "ham") (Some "hi");
            mkMail (Some "ham") (Some "there")] (Some "ham")).
  intros r [<-|[<-|[]]]; reflexivity.
Defined.

End SpamExtras.

(** ** More on the encoding and the similarity matrix *)

Module TfidfMoreFacts.
Import Tfidf TfidfFacts Cosine.
Local Open Scope R_scope.

Lemma ln_le_mono (x y : R) : 0 < x -> x <= y -> ln x <= ln y.
Proof.
  intros Hx [Hlt|Heq].
  - left. apply ln_increasing; assumption.
  - rewrite Heq. lra.
Qed.

Lemma sum_squares_zero (v : list R) :
  sum_squares v = 0 -> Forall (fun x => x = 0) v.
Proof.
  induction v as [|x v IH]; simpl; intros H; [constructor|].
  pose proof (sum_squares_nonneg v) as Hv.
  pose proof (Rle_0_sqr x) as Hx. unfold Rsqr in Hx.
  constructor; [nra|]. apply IH. nra.
Qed.

Lemma sqrt_one_inv (x : R) : 0 <= x -> sqrt x = 1 -> x = 1.
Proof.
  intros Hx H. rewrite <- (sqrt_sqrt x Hx), H. lra.
Qed.

(** The encoded row is the row of weights times a positive factor. *)
Lemma transform_scaled (corpus : list document) (vocabulary : list string)
  (d : document) :
  exists k, 0 < k /\
    transform corpus vocabulary d
    = map (fun t => INR (tf t d) * idf corpus t * k) vocabulary.
Proof.
  unfold transform, normalize.
  destruct (Req_dec_T (l2_norm (weights corpus vocabulary d)) 0) as [E|E].
  - exists 1. split; [lra|]. unfold weights. apply map_ext.
    intros t. lra.
  - exists (/ l2_norm (weights corpus vocabulary d)). split.
    + apply Rinv_0_lt_compat.
      pose proof (sqrt_pos (sum_squares (weights corpus vocabulary d))).
      unfold l2_norm in *. lra.
    + unfold weights. rewrite map_map. apply map_ext. intros t.
      unfold Rdiv. reflexivity.
Qed.

Lemma weight_zero_iff (corpus : list document) (t : string) (d : document)
  (k : R) :
  0 < k -> (INR (tf t d) * idf corpus t * k = 0 <-> ~ In t d).
Proof.
  intros Hk. pose proof (idf_ge_1 corpus t) as Hi. split.
  - intros H Hin. pose proof (tf_pos t d Hin) as Ht.
    assert (Hp : 0 < INR (tf t d) * idf corpus t) by nra.
    pose proof (Rmult_lt_0_compat _ _ Hp Hk). lra.
  - intros Hnot. unfold tf.
    rewrite (proj1 (count_occ_not_In string_dec d t) Hnot). simpl. lra.
Qed.

Lemma weight_nonneg (corpus : list document) (t : string) (d : document)
  (k : R) :
  0 < k -> 0 <= INR (tf t d) * idf corpus t * k.
Proof.
  intros Hk. pose proof (idf_ge_1 corpus t) as Hi.
  pose proof (pos_INR (tf t d)) as Ht.
  assert (Hp : 0 <= INR (tf t d) * idf corpus t) by nra.
  apply Rmult_le_pos; lra.
Qed.

Lemma transform_sum_squares (corpus : list document)
  (vocabulary : list string) (d : document) :
  sum_squares (transform corpus vocabulary d) = 1 \/
  (sum_squares (transform corpus vocabulary d) = 0 /\
   Forall (fun x => x = 0) (weights corpus vocabulary d)).
Proof.
  pose proof (sum_squares_nonneg (weights corpus vocabulary d)) as Hn.
  destruct Hn as [Hpos|Hz].
  - left. apply sqrt_one_inv; [apply sum_squares_nonneg|].
    apply (normalize_unit _ Hpos).
  - right. symmetry in Hz. pose proof (sum_squares_zero _ Hz) as Hf.
    split; [|exact Hf].
    unfold transform. rewrite (normalize_zero _ Hf).
    clear. induction (List.length (weights corpus vocabulary d));
      simpl; [reflexivity|]. rewrite IHn. lra.
Qed.

Lemma normalize_transform (corpus : list document)
  (vocabulary : list string) (d : document) :
  normalize (transform corpus vocabulary d) = transform corpus vocabulary d.
Proof.
  unfold normalize at 1. unfold l2_norm.
  destruct (Req_dec_T (sqrt (sum_squares (transform corpus vocabulary d))) 0)
    as [E|E]; [reflexivity|].
  destruct (transform_sum_squares corpus vocabulary d) as [H|[H _]].
  - rewrite H, sqrt_1. rewrite <- (map_id (transform corpus vocabulary d))
      at 2.
    apply map_ext. intros x. field.
  - rewrite H, sqrt_0 in E. contradiction.
Qed.

Lemma dot_comm (u v : list R) : dot u v = dot v u.
Proof.
  revert v. induction u as [|x u IH]; intros [|y v]; simpl; try reflexivity.
  rewrite IH. ring.
Qed.

Lemma dot_self (u : list R) : dot u u = sum_squares u.
Proof.
  induction u as [|x u IH]; simpl; [reflexivity|]. rewrite IH. reflexivity.
Qed.

Lemma dot_le_squares (u v : list R) :
  2 * dot u v <= sum_squares u + sum_squares v.
Proof.
  revert v. induction u as [|x u IH]; intros [|y v]; simpl.
  - lra.
  - pose proof (sum_squares_nonneg (y :: v)) as H. simpl in H. lra.
  - pose proof (sum_squares_nonneg (x :: u)) as H. simpl in H. lra.
  - specialize (IH v).
    assert (Hs : 2 * (x * y) <= x * x + y * y).
    { pose proof (Rle_0_sqr (x - y)) as Hs. unfold Rsqr in Hs. lra. }
    lra.
Qed.

Lemma dot_maps (f g : string -> R) (l : list string) :
  (forall t, In t l -> 0 <= f t * g t) -> 0 <= dot (map f l) (map g l).
Proof.
  induction l as [|t l IH]; simpl; intros H; [lra|].
  pose proof (H t (or_introl eq_refl)).
  assert (0 <= dot (map f l) (map g l)) by (apply IH; auto).
  lra.
Qed.

Lemma dot_maps_zero (f g : string -> R) (l : list string) :
  (forall t, In t l -> f t * g t = 0) -> dot (map f l) (map g l) = 0.
Proof.
  induction l as [|t l IH]; simpl; intros H; [reflexivity|].
  rewrite (H t (or_introl eq_refl)), IH; [lra|auto].
Qed.

Lemma similarity_entry (corpus : list document) (vocabulary : list string)
  (i j : nat) (d1 d2 : document) :
  nth_error corpus i = Some d1 -> nth_error corpus j = Some d2 ->
  entry (similarity corpus vocabulary) i j
  = Some (dot (transform corpus vocabulary d1)
              (transform corpus vocabulary d2)).
Proof.
  intros H1 H2.
  unfold entry, similarity, cosine_similarity, fit_transform.
  cbv zeta. rewrite !map_map, nth_error_map, H1.
  cbn [option_map]. rewrite map_map, nth_error_map, H2. cbn [option_map].
  rewrite !normalize_transform. reflexivity.
Qed.

Lemma similarity_entry_inv (corpus : list document)
  (vocabulary : list string) (i j : nat) (x : R) :
  entry (similarity corpus vocabulary) i j = Some x ->
  exists d1 d2,
    nth_error corpus i = Some d1 /\ nth_error corpus j = Some d2.
Proof.
  unfold entry, similarity, cosine_similarity, fit_transform.
  cbv zeta. rewrite !map_map, nth_error_map.
  destruct (nth_error corpus i) as [d1|]; cbn [option_map];
    [|discriminate].
  rewrite map_map, nth_error_map.
  destruct (nth_error corpus j) as [d2|]; cbn [option_map];
    [|discriminate].
  intros _. exists d1, d2. auto.
Qed.

End TfidfMoreFacts.

Module TfidfExtras.
Import Tfidf TfidfFacts Cosine TfidfMoreFacts.
Local Open Scope R_scope.

Lemma square_le_sum_squares (v : list R) (x : R) :
  In x v -> x * x <= sum_squares v.
Proof.
  induction v as [|y v IH]; simpl; intros H; [contradiction|].
  pose proof (sum_squares_nonneg v) as Hv.
  pose proof (Rle_0_sqr y) as Hy. unfold Rsqr in Hy.
  destruct H as [->|H]; [lra|]. specialize (IH H). lra.
Qed.

Lemma has_term_norm (corpus : list document) (vocabulary : list string)
  (d : document) (t : string) :
  In t d -> In t vocabulary ->
  sum_squares (transform corpus vocabulary d) = 1.
Proof.
  intros Hd Hv.
  destruct (transform_sum_squares corpus vocabulary d) as [H|[_ Hz]];
    [exact H|].
  exfalso. rewrite Forall_forall in Hz.
  assert (Hw : INR (tf t d) * idf corpus t = 0).
  { apply Hz. unfold weights.
    apply (in_map (fun t => INR (tf t d) * idf corpus t)). exact Hv. }
  pose proof (tf_pos t d Hd). pose proof (idf_ge_1 corpus t). nra.
Qed.

(** X22.  Every entry of an encoded row lies between 0 and 1. *)
Theorem transform_entries_in_unit_interval
  (corpus : list document) (vocabulary : list string) (d : document) :
  Forall (fun x => 0 <= x <= 1) (transform corpus vocabulary d).
Proof.
  rewrite Forall_forall. intros x Hx.
  assert (Hpos : 0 <= x).
  { destruct (transform_scaled corpus vocabulary d) as (k & Hk & E).
    rewrite E in Hx. apply in_map_iff in Hx. destruct Hx as (t & <- & _).
    apply weight_nonneg. exact Hk. }
  split; [exact Hpos|].
  pose proof (square_le_sum_squares _ x Hx) as Hsq.
  destruct (transform_sum_squares corpus vocabulary d) as [H|[H _]];
    rewrite H in Hsq; nra.
Qed.

(** X23.  The entry of an encoded row at the index of a vocabulary term
    is zero exactly when the term does not occur in the document. *)
Theorem transform_entry_zero_iff
  (corpus : list document) (vocabulary : list string) (d : document)
  (j : nat) (t : string) :
  nth_error vocabulary j = Some t ->
  exists x, nth_error (transform corpus vocabulary d) j = Some x /\
            (x = 0 <-> ~ In t d).
Proof.
  intros Hj.
  destruct (transform_scaled corpus vocabulary d) as (k & Hk & E).
  exists (INR (tf t d) * idf corpus t * k). split.
  - rewrite E, nth_error_map, Hj. reflexivity.
  - apply weight_zero_iff. exact Hk.
Qed.

Lemma transform_entry_zero_witness :
  exists x,
    nth_error (transform [["free"; "prize"]] ["free"; "prize"] ["free"]) 1
    = Some x /\ (x = 0 <-> ~ In "prize" ["free"]).
Proof.
  apply (transform_entry_zero_iff [["free"; "prize"]] ["free"; "prize"]
           ["free"] 1%nat "prize").
  reflexivity.
Defined.

(** X24.  The encoding sees a document as a bag of terms: two documents
    with the same terms in another order get the same row. *)
Theorem transform_ignores_term_order
  (corpus : list document) (vocabulary : list string) (d d' : document) :
  Permutation d d' ->
  transform corpus vocabulary d = transform corpus vocabulary d'.
Proof.
  intros Hp. unfold transform. f_equal. unfold weights.
  apply map_ext. intros t. unfold tf.
  rewrite (proj1 (Permutation_count_occ string_dec d d') Hp t).
  reflexivity.
Qed.

Lemma transform_ignores_term_order_witness :
  transform [["free"; "prize"]] ["free"; "prize"] ["free"; "prize"]
  = transform [["free"; "prize"]] ["free"; "prize"] ["prize"; "free"].
Proof.
  apply transform_ignores_term_order. apply perm_swap.
Defined.

(** X25.  The idf falls as the document frequency rises: of two terms
    the one in more documents never has the larger idf, and a term in
    every document has idf exactly 1. *)
Theorem idf_antitone (corpus : list document) (t1 t2 : string) :
  ((df corpus t1 <= df corpus t2)%nat -> idf corpus t2 <= idf corpus t1) /\
  (df corpus t1 = n_samples corpus -> idf corpus t1 = 1).
Proof.
  unfold idf. split.
  - intros Hle. apply le_INR in Hle.
    pose proof (pos_INR (df corpus t1)) as H1.
    pose proof (pos_INR (df corpus t2)) as H2.
    pose proof (pos_INR (n_samples corpus)) as Hn.
    apply Rplus_le_compat_r. apply ln_le_mono.
    + apply Rdiv_lt_0_compat; lra.
    + unfold Rdiv. apply Rmult_le_compat_l; [lra|].
      apply Rinv_le_contravar; lra.
  - intros ->.
    replace ((1 + INR (n_samples corpus)) / (1 + INR (n_samples corpus)))
      with 1.
    + rewrite ln_1. lra.
    + pose proof (pos_INR (n_samples corpus)). field. lra.
Qed.

Lemma idf_antitone_witness :
  idf [["free"; "prize"]; ["free"]] "free"
  <= idf [["free"; "prize"]; ["free"]] "prize".
Proof.
  apply (proj1 (idf_antitone [["free"; "prize"]; ["free"]] "prize" "free")).
  vm_compute. lia.
Defined.

(** X26.  The similarity matrix of a fitted corpus is square: it has one
    row per document and every row has one entry per document. *)
Theorem similarity_is_square
  (corpus : list document) (vocabulary : list string) :
  List.length (similarity corpus vocabulary) = List.length corpus /\
  Forall (fun row => List.length row = List.length corpus)
    (similarity corpus vocabulary).
Proof.
  unfold similarity, cosine_similarity, fit_transform. cbv zeta. split.
  - rewrite !length_map. reflexivity.
  - rewrite Forall_forall. intros row Hrow.
    apply in_map_iff in Hrow. destruct Hrow as (u & <- & _).
    rewrite !length_map. reflexivity.
Qed.

(** X27.  No entry of the similarity matrix is negative, and the matrix
    is symmetric. *)
Theorem similarity_nonnegative_and_symmetric
  (corpus : list document) (vocabulary : list string) (i j : nat) (x : R) :
  entry (similarity corpus vocabulary) i j = Some x ->
  0 <= x /\ entry (similarity corpus vocabulary) j i = Some x.
Proof.
  intros H.
  destruct (similarity_entry_inv corpus vocabulary i j x H)
    as (d1 & d2 & H1 & H2).
  rewrite (similarity_entry corpus vocabulary i j d1 d2 H1 H2) in H.
  inversion H as [Hx]. clear H.
  split.
  - destruct (transform_scaled corpus vocabulary d1) as (k1 & Hk1 & E1).
    destruct (transform_scaled corpus vocabulary d2) as (k2 & Hk2 & E2).
    rewrite E1, E2. apply dot_maps. intros t _.
    apply Rmult_le_pos; apply weight_nonneg; assumption.
  - rewrite (similarity_entry corpus vocabulary j i d2 d1 H2 H1).
    rewrite dot_comm. reflexivity.
Qed.

Lemma similarity_nonnegative_witness :
  exists x,
    entry (similarity [["free"]; ["prize"]] ["free"; "prize"]) 0 1 = Some x /\
    0 <= x /\
    entry (similarity [["free"]; ["prize"]] ["free"; "prize"]) 1 0 = Some x.
Proof.
  eexists. split.
  - apply (similarity_entry [["free"]; ["prize"]] ["free"; "prize"]
             0%nat 1%nat ["free"] ["prize"]); reflexivity.
  - apply (similarity_nonnegative_and_symmetric
             [["free"]; ["prize"]] ["free"; "prize"] 0%nat 1%nat).
    apply (similarity_entry [["free"]; ["prize"]] ["free"; "prize"]
             0%nat 1%nat ["free"] ["prize"]); reflexivity.
Defined.

(** X28.  A document with at least one vocabulary term has a positive
    entry on the diagonal of the similarity matrix; for a document with
    none the whole row is zero, the diagonal included: such a document
    is not similar to itself. *)
Theorem similarity_diagonal
  (corpus : list document) (vocabulary : list string) (i : nat)
  (d : document) :
  nth_error corpus i = Some d ->
  ((exists t, In t d /\ In t vocabulary) ->
   exists x, entry (similarity corpus vocabulary) i i = Some x /\ 0 < x) /\
  ((forall t, In t d -> ~ In t vocabulary) ->
   forall j, (j < List.length corpus)%nat ->
             entry (similarity corpus vocabulary) i j = Some 0).
Proof.
  intros Hi. split.
  - intros (t & Hd & Hv).
    exists (dot (transform corpus vocabulary d) (transform corpus vocabulary d)).
    split; [apply (similarity_entry corpus vocabulary i i d d Hi Hi)|].
    rewrite dot_self, (has_term_norm corpus vocabulary d t Hd Hv). lra.
  - intros Hnone j Hj.
    destruct (nth_error corpus j) as [d2|] eqn:E;
      [|apply nth_error_None in E; lia].
    rewrite (similarity_entry corpus vocabulary i j d d2 Hi E). f_equal.
    destruct (transform_scaled corpus vocabulary d) as (k & Hk & E1).
    destruct (transform_scaled corpus vocabulary d2) as (k2 & Hk2 & E2).
    rewrite E1, E2. apply dot_maps_zero. intros t Hv.
    assert (Hz : INR (tf t d) * idf corpus t * k = 0).
    { apply weight_zero_iff; [exact Hk|].
      intros Hd. exact (Hnone t Hd Hv). }
    rewrite Hz. lra.
Qed.

Lemma similarity_diagonal_witness :
  (exists x, entry (similarity [["free"]; ["the"]] ["free"]) 0 0 = Some x /\
             0 < x) /\
  entry (similarity [["free"]; ["the"]] ["free"]) 1 1 = Some 0.
Proof.
  split.
  - apply (proj1 (similarity_diagonal [["free"]; ["the"]] ["free"] 0%nat
                    ["free"] eq_refl)).
    exists "free". simpl. auto.
  - apply (proj2 (similarity_diagonal [["free"]; ["the"]] ["free"] 1%nat
                    ["the"] eq_refl)).
    + intros t [<-|[]] [H|[]]. discriminate H.
    + simpl. lia.
Defined.

(** X29.  Two documents of the corpus that share no vocabulary term have
    similarity 0. *)
Theorem similarity_disjoint_zero
  (corpus : list document) (vocabulary : list string) (i j : nat)
  (d1 d2 : document) :
  nth_error corpus i = Some d1 -> nth_error corpus j = Some d2 ->
  (forall t, In t vocabulary -> In t d1 -> ~ In t d2) ->
  entry (similarity corpus vocabulary) i j = Some 0.
Proof.
  intros H1 H2 Hdis.
  rewrite (similarity_entry corpus vocabulary i j d1 d2 H1 H2). f_equal.
  destruct (transform_scaled corpus vocabulary d1) as (k1 & Hk1 & E1).
  destruct (transform_scaled corpus vocabulary d2) as (k2 & Hk2 & E2).
  rewrite E1, E2. apply dot_maps_zero. intros t Hv.
  destruct (in_dec string_dec t d1) as [Hin|Hnot].
  - assert (Hz : INR (tf t d2) * idf corpus t * k2 = 0).
    { apply weight_zero_iff; [exact Hk2|]. apply Hdis; assumption. }
    rewrite Hz. lra.
  - assert (Hz : INR (tf t d1) * idf corpus t * k1 = 0).
    { apply weight_zero_iff; assumption. }
    rewrite Hz. lra.
Qed.

Lemma similarity_disjoint_witness :
  entry (similarity [["free"]; ["prize"]] ["free"; "prize"]) 0 1 = Some 0.
Proof.
  apply (similarity_disjoint_zero [["free"]; ["prize"]] ["free"; "prize"]
           0%nat 1%nat ["free"] ["prize"]).
  - reflexivity.
  - reflexivity.
  - intros t _ [<-|[]] [H|[]]. discriminate H.
Defined.

(** X30.  Two documents of the corpus with the same terms, in whatever
    order, are as similar to each other as each is to itself: the entry
    for the pair equals both diagonal entries, so the two tie at the top
    of each other's rows. *)
Theorem similarity_same_terms_tie
  (corpus : list document) (vocabulary : list string) (i j : nat)
  (d1 d2 : document) :
  nth_error corpus i = Some d1 -> nth_error corpus j = Some d2 ->
  Permutation d1 d2 ->
  exists x,
    entry (similarity corpus vocabulary) i j = Some x /\
    entry (similarity corpus vocabulary) i i = Some x /\
    entry (similarity corpus vocabulary) j j = Some x.
Proof.
  intros H1 H2 Hp.
  assert (E : transform corpus vocabulary d1 = transform corpus vocabulary d2).
  { unfold transform. f_equal. unfold weights.
    apply map_ext. intros u. unfold tf.
    rewrite (proj1 (Permutation_count_occ string_dec d1 d2) Hp u).
    reflexivity. }
  exists (dot (transform corpus vocabulary d1) (transform corpus vocabulary d1)).
  rewrite (similarity_entry corpus vocabulary i j d1 d2 H1 H2).
  rewrite (similarity_entry corpus vocabulary i i d1 d1 H1 H1).
  rewrite (similarity_entry corpus vocabulary j j d2 d2 H2 H2).
  rewrite <- E. repeat split; reflexivity.
Qed.

Lemma similarity_same_terms_witness :
  exists x,
    entry (similarity [["free"; "prize"]; ["prize"; "free"]]
             ["free"; "prize"]) 0 1 = Some x /\
    entry (similarity [["free"; "prize"]; ["prize"; "free"]]
             ["free"; "prize"]) 0 0 = Some x /\
    entry (similarity [["free"; "prize"]; ["prize"; "free"]]
             ["free"; "prize"]) 1 1 = Some x.
Proof.
  apply (similarity_same_terms_tie
           [["free"; "prize"]; ["prize"; "free"]] ["free"; "prize"]
           0%nat 1%nat ["free"; "prize"] ["prize"; "free"]).
  - reflexivity.
  - reflexivity.
  - apply perm_swap.
Defined.

End TfidfExtras.
